(** * The unified LLM API client of pmc-estimator (config/config-api)

    A shallow embedding of [api_client.py], [usage_tracker.py],
    [credentials.py], [base_provider.py] and the three provider variants
    under [providers/], with the properties of the orchestration
    algorithm, of the usage log and of the cost formula.

    Conventions of the embedding:
    - Python [float] values (costs, billing rates, sleep durations) are
      exact rationals [Q]; [round(x, n)] is rounding to [n] decimals,
      ties to even. The one decision taken on a sum of floats, the cost
      check, is also modelled in binary64 ([check_cost_limit64],
      [call64]), where the sum is rounded at every addition as Python
      rounds it.
    - A Python function that may raise returns a [result]; code that also
      reads or writes the usage log, the credential cache, the clock or
      the network runs in the monad [M] over [State].
    - What the world outside the repository answers (environment
      variables, upstream API replies, clock readings, installed
      packages) is a [World]: the n-th upstream request and the n-th
      clock reading are answered by functions of n, so that every
      sequence of answers is covered.
    - Configuration keys read with [d.get(k, default)] are [option]
      fields; keys read with [d[k]] by every reader are plain fields.
    - Writing the usage log and sleeping are taken to succeed.
    - A usage log is a JSON list of entries with the keys [log_request]
      writes. A [LogFile] is the file in the states that [_load_logs]
      reads without raising; a [TrackFile] adds the file whose bytes are
      no text, on which [json.load] raises a [UnicodeDecodeError] that
      [_load_logs] does not catch. *)

From Stdlib Require Import QArith Qpower ZArith Lia Floats.
From stdpp Require Import gmap strings list.

Open Scope string_scope.

(* ===================================================================== *)
(** ** Exceptions *)
(* ===================================================================== *)

(** The [ValueError]s of the repository, one constructor per [raise]
    site, and the [ValueError]s an SDK may raise from inside a provider
    call. *)
Inductive ValueErrorMsg : Type :=
| DailyLimitExceeded (agent_name : string) (requests_today limit : Z)
    (* api_client.py:101 *)
| CostLimitExceeded (cost limit : Q)
    (* api_client.py:109 *)
| ProviderNotInConfig (provider_name : string)
    (* api_client.py:125 *)
| CredentialProviderNotFound (provider_name : string)
    (* credentials.py:49 *)
| NoApiKeyEnvVar (provider_name : string)
    (* credentials.py:54 *)
| ApiKeyNotFound (provider_name env_var : string)
    (* credentials.py:62 *)
| UnknownProvider (provider_name : string)
    (* provider_factory.py:43 *)
| ProviderNotEnabled (provider_name : string)
    (* provider_factory.py:50 *)
| AgentNotFound (agent_name : string)
    (* api_client.py:71 *)
| UpstreamValueError (msg : string).

Inductive Exn : Type :=
| ValueError (m : ValueErrorMsg)
| KeyError (key : string)
| ImportError (msg : string)
| NotImplementedError
| AttributeError
| UpstreamError (msg : string)
    (* any other subclass of Exception raised by an SDK call *)
| AllProvidersFailed (last_error : Exn).
    (* api_client.py:170, Exception("All providers failed...") from e *)

(** [except ValueError] *)
Definition is_ValueError (e : Exn) : bool :=
  match e with ValueError _ => true | _ => false end.

Inductive result (A : Type) : Type :=
| Return (a : A)
| Raise (e : Exn).
Arguments Return {A} a.
Arguments Raise {A} e.

(* ===================================================================== *)
(** ** Configuration (agency-config.json) *)
(* ===================================================================== *)

Record Billing : Type := {
  input_per_mtok : option Q;
  output_per_mtok : option Q
}.

Record ProviderConfig : Type := {
  model : string;
  enabled : bool;                    (* config.get("enabled"), absent is falsy *)
  max_tokens : option Z;
  api_key_env_var : option string;
  billing : Billing
}.

Record AgentConfig : Type := {
  agent_provider : option string;        (* "provider" *)
  fallback_providers : list string;      (* absent is [] *)
  requests_per_day : option Z            (* rate_limit.requests_per_day *)
}.

Record AgencyConfig : Type := {
  providers : gmap string ProviderConfig;
  agents : gmap string AgentConfig;
  hard_limit_dollars : option Q;     (* usage_control.cost_tracking *)
  retry_backoff_base : option Q      (* api.retry_backoff_base *)
}.

(* ===================================================================== *)
(** ** Numbers *)
(* ===================================================================== *)

Definition Qlt_bool (x y : Q) : bool := negb (Qle_bool y x).

(** Nearest integer, ties to even. *)
Definition round_half_even (x : Q) : Z :=
  let n := Qnum x in
  let d := Z.pos (Qden x) in
  let f := (n / d)%Z in
  let r := (n mod d)%Z in
  match (2 * r ?= d)%Z with
  | Lt => f
  | Gt => (f + 1)%Z
  | Eq => if Z.even f then f else (f + 1)%Z
  end.

(** Python's [round(x, ndigits)]. *)
Definition py_round (x : Q) (ndigits : nat) : Q :=
  let scale := (10 ^ Z.of_nat ndigits)%Z in
  Qmake (round_half_even (x * inject_Z scale)) (Z.to_pos scale).

(* ===================================================================== *)
(** ** The usage log (usage_tracker.py) *)
(* ===================================================================== *)

(** A naive local [datetime]: the calendar day and the time within it. *)
Record DateTime : Type := {
  date : Z;
  time_of_day : Z
}.

Inductive Status : Type := success | failure.

Inductive Metadata : Type :=
| MetaMaxTokens (max_tokens : option Z)      (* {"max_tokens": max_tokens} *)
| MetaError (e : Exn).                       (* {"error": str(e)} *)

Record UsageLogEntry : Type := {
  timestamp : DateTime;
  agent : string;
  entry_provider : string;       (* "provider" *)
  tokens_in : Z;
  tokens_out : Z;
  entry_total_tokens : Z;       (* "total_tokens" *)
  cost_usd : Q;
  status : Status;
  metadata : option Metadata
}.

(** What may be found at [track_file], when reading it raises nothing
    that [_load_logs] lets through (see [TrackFile] for the file that
    does). [FileLogs] is a log as [log_request] writes it. *)
Inductive LogFile : Type :=
| FileMissing
| FileUnreadable
| FileInvalidJSON
| FileLogs (logs : list UsageLogEntry).

Definition _load_logs (f : LogFile) : list UsageLogEntry :=
  match f with
  | FileMissing => []               (* not self.log_file.exists() *)
  | FileUnreadable => []            (* except IOError *)
  | FileInvalidJSON => []           (* except json.JSONDecodeError *)
  | FileLogs logs => logs
  end.

Definition new_log_entry (now : DateTime) (agent_name provider : string)
    (tokens_in tokens_out : Z) (cost : Q) (status : Status)
    (metadata : option Metadata) : UsageLogEntry :=
  {| timestamp := now;
     agent := agent_name;
     entry_provider := provider;
     tokens_in := tokens_in;
     tokens_out := tokens_out;
     entry_total_tokens := (tokens_in + tokens_out)%Z;
     cost_usd := py_round cost 4;
     status := status;
     metadata := metadata |}.

(** [UsageTracker.log_request], given the reading of the clock. *)
Definition log_request (now : DateTime) (agent_name provider : string)
    (tokens_in tokens_out : Z) (cost : Q) (status : Status)
    (metadata : option Metadata) (f : LogFile) : LogFile :=
  let log_entry :=
    new_log_entry now agent_name provider tokens_in tokens_out cost status
      metadata in
  let logs := _load_logs f in
  FileLogs (logs ++ [log_entry])%list.

Record Stats : Type := {
  calls : Z;
  tokens : Z;
  cost : Q
}.

Record Summary : Type := {
  total_calls : nat;
  total_tokens : Z;
  total_cost : Q;
  by_provider : gmap string Stats;
  by_agent : gmap string Stats
}.

(** [if k not in d: d[k] = zeros], then the three [+=]. *)
Definition add_stats (k : string) (tok : Z) (c : Q)
    (d : gmap string Stats) : gmap string Stats :=
  let cur := default {| calls := 0; tokens := 0; cost := 0 |} (d !! k) in
  <[k := {| calls := (calls cur + 1)%Z;
            tokens := (tokens cur + tok)%Z;
            cost := (cost cur + c)%Q |}]> d.

(** One iteration of the loop of [get_usage_summary]. *)
Definition summary_step (summary : Summary) (log : UsageLogEntry) : Summary :=
  match status log with
  | failure => summary
  | success =>
      {| total_calls := total_calls summary;
         total_tokens := (total_tokens summary + entry_total_tokens log)%Z;
         total_cost := (total_cost summary + cost_usd log)%Q;
         by_provider :=
           add_stats (entry_provider log) (entry_total_tokens log) (cost_usd log)
             (by_provider summary);
         by_agent :=
           add_stats (agent log) (entry_total_tokens log) (cost_usd log)
             (by_agent summary) |}
  end.

Definition empty_summary (n : nat) : Summary :=
  {| total_calls := n;
     total_tokens := 0;
     total_cost := 0;
     by_provider := ∅;
     by_agent := ∅ |}.

Definition get_usage_summary (f : LogFile) : Summary :=
  let logs := _load_logs f in
  fold_left summary_step logs (empty_summary (length logs)).

(** [UsageTracker.check_cost_limit] on exact sums; [check_cost_limit64]
    is the same check on the floats of Python. *)
Definition check_cost_limit (cfg : AgencyConfig) (f : LogFile)
    : bool * Q * Q :=
  let limit := default 100%Q (hard_limit_dollars cfg) in
  let summary := get_usage_summary f in
  let current := total_cost summary in
  (Qlt_bool current limit, current, limit).

(** [UsageTracker.check_requests_per_agent_per_day], given today's date. *)
Definition check_requests_per_agent_per_day (cfg : AgencyConfig)
    (today : Z) (f : LogFile) (agent_name : string) : bool * Z * Z :=
  let limit :=
    default 100%Z (agents cfg !! agent_name ≫= requests_per_day) in
  let logs := _load_logs f in
  let today_requests :=
    fold_left
      (fun n log =>
         if Z.eqb (date (timestamp log)) today
            && String.eqb (agent log) agent_name
         then (n + 1)%Z else n)
      logs 0%Z in
  ((today_requests <? limit)%Z, today_requests, limit).

(** The aggregate the cost limit is about: the sum of [cost_usd] over the
    entries with status [success]. *)
Fixpoint success_cost (logs : list UsageLogEntry) : Q :=
  match logs with
  | [] => 0
  | log :: rest =>
      match status log with
      | success => cost_usd log + success_cost rest
      | failure => success_cost rest
      end
  end.

(* ===================================================================== *)
(** ** The world outside, the state of a client, effects *)
(* ===================================================================== *)

Inductive ProviderKind : Type := ClaudeProvider | ChatGPTProvider | GrokProvider.

Record Message : Type := {
  role : string;
  msg_content : string
}.

(** What a provider variant sends upstream. *)
Record Request : Type := {
  req_kind : ProviderKind;
  req_api_key : string;
  req_model : string;
  req_max_tokens : Z;
  req_system : option string;
  req_messages : list Message
}.

(** What comes back from [messages.create] / [chat.completions.create]:
    the text and the usage counts, or an exception, which is a
    [ValueError] or not. *)
Inductive Upstream : Type :=
| UpstreamReturn (text : string) (input_tokens output_tokens : Z)
| UpstreamRaise (value_error : bool) (msg : string).

Record World : Type := {
  environ : gmap string string;           (* os.environ *)
  upstream : nat -> Request -> Upstream;  (* the n-th request sent *)
  clock : nat -> DateTime;                (* the n-th datetime.now() *)
  openai_installed : bool;                (* import openai *)
  xai_grok_installed : bool               (* from xai_grok import Grok *)
}.

(** The effects of a call that the properties are about, in order. *)
Inductive Event : Type :=
| EvCheckDaily                         (* check_requests_per_agent_per_day *)
| EvCheckCost                          (* check_cost_limit *)
| EvTry (provider_name : string)       (* an iteration of the for loop *)
| EvCall (kind : ProviderKind) (attempt : nat)   (* provider.call(...) *)
| EvSleep (seconds : Q)                (* time.sleep(wait_time) *)
| EvLog (entry : UsageLogEntry).       (* usage_tracker.log_request(...) *)

Record State : Type := {
  log_file : LogFile;                  (* the file at track_file *)
  _cache : gmap string string;         (* CredentialsManager._cache *)
  requests_sent : nat;
  clock_reads : nat;
  trace : list Event
}.

Definition set_log_file (f : LogFile) (st : State) : State :=
  {| log_file := f; _cache := _cache st; requests_sent := requests_sent st;
     clock_reads := clock_reads st; trace := trace st |}.

Definition set_cache (c : gmap string string) (st : State) : State :=
  {| log_file := log_file st; _cache := c; requests_sent := requests_sent st;
     clock_reads := clock_reads st; trace := trace st |}.

Definition count_request (st : State) : State :=
  {| log_file := log_file st; _cache := _cache st;
     requests_sent := S (requests_sent st);
     clock_reads := clock_reads st; trace := trace st |}.

Definition count_clock_read (st : State) : State :=
  {| log_file := log_file st; _cache := _cache st;
     requests_sent := requests_sent st;
     clock_reads := S (clock_reads st); trace := trace st |}.

Definition emit (ev : Event) (st : State) : State :=
  {| log_file := log_file st; _cache := _cache st;
     requests_sent := requests_sent st;
     clock_reads := clock_reads st; trace := (trace st ++ [ev])%list |}.

Definition M (A : Type) : Type := State -> result A * State.

Definition ret {A} (a : A) : M A := fun st => (Return a, st).
Definition raise {A} (e : Exn) : M A := fun st => (Raise e, st).
Definition bind {A B} (m : M A) (k : A -> M B) : M B :=
  fun st =>
    match m st with
    | (Return a, st') => k a st'
    | (Raise e, st') => (Raise e, st')
    end.
Definition lift {A} (r : result A) : M A := fun st => (r, st).
Definition modify (f : State -> State) : M unit := fun st => (Return tt, f st).

Notation "x <- m ;; k" := (bind m (fun x => k))
  (at level 100, m at next level, right associativity).
Notation "m ;;; k" := (bind m (fun _ => k))
  (at level 100, right associativity).

(** [datetime.now()] *)
Definition datetime_now (w : World) : M DateTime :=
  fun st => (Return (clock w (clock_reads st)), count_clock_read st).

(* ===================================================================== *)
(** ** CredentialsManager (credentials.py) *)
(* ===================================================================== *)

Definition lower_ascii (c : Ascii.ascii) : Ascii.ascii :=
  let n := Ascii.nat_of_ascii c in
  if (65 <=? n)%nat && (n <=? 90)%nat then Ascii.ascii_of_nat (n + 32) else c.

(** [str.lower()], on ASCII names. *)
Fixpoint lower (s : string) : string :=
  match s with
  | EmptyString => EmptyString
  | String c rest => String (lower_ascii c) (lower rest)
  end.

(** Truthiness of an optional string: [None] and [""] are falsy. *)
Definition truthy (s : option string) : option string :=
  match s with
  | Some EmptyString => None
  | other => other
  end.

Definition CredentialsManager_get (cfg : AgencyConfig) (w : World)
    (provider_name : string) : M string :=
  fun st =>
    let provider_name_lower := lower provider_name in
    match _cache st !! provider_name_lower with
    | Some api_key => (Return api_key, st)
    | None =>
        match providers cfg !! provider_name_lower with
        | None =>
            (Raise (ValueError (CredentialProviderNotFound provider_name)), st)
        | Some pc =>
            match truthy (api_key_env_var pc) with
            | None => (Raise (ValueError (NoApiKeyEnvVar provider_name)), st)
            | Some env_var =>
                match truthy (environ w !! env_var) with
                | None =>
                    (Raise (ValueError (ApiKeyNotFound provider_name env_var)),
                     st)
                | Some api_key =>
                    (Return api_key,
                     set_cache (<[provider_name_lower := api_key]> (_cache st))
                       st)
                end
            end
        end
    end.

(* ===================================================================== *)
(** ** Providers (base_provider.py, providers/) *)
(* ===================================================================== *)

Record APIResponse : Type := {
  content : string;
  resp_model : string;          (* "model" *)
  input_tokens : Z;
  output_tokens : Z;
  resp_cost_usd : Q;            (* "cost_usd" *)
  resp_provider : string        (* "provider" *)
}.

(** A provider object: its class, [self.config] and [self.api_key]. *)
Record Provider : Type := {
  kind : ProviderKind;
  config : ProviderConfig;
  api_key : string
}.

(** [ProviderFactory.PROVIDERS] *)
Definition PROVIDERS : gmap string ProviderKind :=
  {[ "claude" := ClaudeProvider;
     "chatgpt" := ChatGPTProvider;
     "grok" := GrokProvider ]}.

(** The three [__init__]: the scaffolded variants import their SDK. *)
Definition provider_init (w : World) (cls : ProviderKind)
    (pc : ProviderConfig) (key : string) : result Provider :=
  let self := {| kind := cls; config := pc; api_key := key |} in
  match cls with
  | ClaudeProvider => Return self
  | ChatGPTProvider =>
      if openai_installed w then Return self
      else Raise (ImportError "OpenAI library not installed.")
  | GrokProvider =>
      if xai_grok_installed w then Return self
      else Raise (ImportError "Grok library not installed.")
  end.

Definition ProviderFactory_create (w : World) (provider_name : string)
    (pc : ProviderConfig) (key : string) : result Provider :=
  let provider_name_lower := lower provider_name in
  match PROVIDERS !! provider_name_lower with
  | None => Raise (ValueError (UnknownProvider provider_name))
  | Some provider_class =>
      if negb (enabled pc)
      then Raise (ValueError (ProviderNotEnabled provider_name))
      else provider_init w provider_class pc key
  end.

(** [(tokens * rate) / 1000] *)
Definition token_cost (n : Z) (rate : Q) : Q := (inject_Z n * rate) / 1000.

Definition calculate_cost (self : Provider) (input_tokens output_tokens : Z)
    : result Q :=
  let billing := billing (config self) in
  match kind self with
  | ClaudeProvider | ChatGPTProvider =>
      match input_per_mtok billing with
      | None => Raise (KeyError "input_per_mtok")
      | Some rate_in =>
          let input_cost := token_cost input_tokens rate_in in
          match output_per_mtok billing with
          | None => Raise (KeyError "output_per_mtok")
          | Some rate_out =>
              let output_cost := token_cost output_tokens rate_out in
              Return (py_round (input_cost + output_cost) 6)
          end
      end
  | GrokProvider =>
      let input_cost :=
        token_cost input_tokens (default (2 # 1000) (input_per_mtok billing)) in
      let output_cost :=
        token_cost output_tokens (default (1 # 100) (output_per_mtok billing)) in
      Return (py_round (input_cost + output_cost) 6)
  end.

(** [max_tokens or self.config.get("max_tokens", 4096)] *)
Definition effective_max_tokens (mt : option Z) (pc : ProviderConfig) : Z :=
  match mt with
  | Some n => if (n =? 0)%Z then default 4096%Z (max_tokens pc) else n
  | None => default 4096%Z (max_tokens pc)
  end.

(** The SDK call: one request upstream, answered by the world. *)
Definition send (w : World) (rq : Request) : M (string * Z * Z) :=
  fun st =>
    let st' := count_request st in
    match upstream w (requests_sent st) rq with
    | UpstreamReturn text tin tout => (Return (text, tin, tout), st')
    | UpstreamRaise true msg =>
        (Raise (ValueError (UpstreamValueError msg)), st')
    | UpstreamRaise false msg => (Raise (UpstreamError msg), st')
    end.

Definition provider_name_of (cls : ProviderKind) : string :=
  match cls with
  | ClaudeProvider => "claude"
  | ChatGPTProvider => "chatgpt"
  | GrokProvider => "grok"
  end.

(** [ClaudeProvider.call], [ChatGPTProvider.call], [GrokProvider.call] *)
Definition provider_call (w : World) (self : Provider)
    (messages : list Message) (system_prompt : option string)
    (mt : option Z) : M APIResponse :=
  match kind self with
  | ClaudeProvider =>
      response <- send w
        {| req_kind := ClaudeProvider;
           req_api_key := api_key self;
           req_model := model (config self);
           req_max_tokens := effective_max_tokens mt (config self);
           req_system := system_prompt;
           req_messages := messages |} ;;
      let '(text, tin, tout) := response in
      cost <- lift (calculate_cost self tin tout) ;;
      ret {| content := text;
             resp_model := model (config self);
             input_tokens := tin;
             output_tokens := tout;
             resp_cost_usd := cost;
             resp_provider := "claude" |}
  | ChatGPTProvider =>
      let all_messages :=
        (match truthy system_prompt with
         | Some sp => [{| role := "system"; msg_content := sp |}]
         | None => []
         end ++ messages)%list in
      response <- send w
        {| req_kind := ChatGPTProvider;
           req_api_key := api_key self;
           req_model := model (config self);
           req_max_tokens := effective_max_tokens mt (config self);
           req_system := None;
           req_messages := all_messages |} ;;
      let '(text, tin, tout) := response in
      cost <- lift (calculate_cost self tin tout) ;;
      ret {| content := text;
             resp_model := model (config self);
             input_tokens := tin;
             output_tokens := tout;
             resp_cost_usd := cost;
             resp_provider := "chatgpt" |}
  | GrokProvider => raise NotImplementedError
  end.

(* ===================================================================== *)
(** ** UsageTracker, as the client uses it *)
(* ===================================================================== *)

Definition UsageTracker_log_request (w : World) (agent_name provider : string)
    (tin tout : Z) (c : Q) (st_ : Status) (md : option Metadata) : M unit :=
  now <- datetime_now w ;;
  modify (fun st =>
    emit (EvLog (new_log_entry now agent_name provider tin tout c st_ md))
      (set_log_file
         (log_request now agent_name provider tin tout c st_ md (log_file st))
         st)).

Definition UsageTracker_check_requests_per_agent_per_day
    (cfg : AgencyConfig) (w : World) (agent_name : string)
    : M (bool * Z * Z) :=
  modify (emit EvCheckDaily) ;;;
  today <- datetime_now w ;;
  fun st =>
    (Return
       (check_requests_per_agent_per_day cfg (date today) (log_file st)
          agent_name), st).

Definition UsageTracker_check_cost_limit (cfg : AgencyConfig)
    : M (bool * Q * Q) :=
  modify (emit EvCheckCost) ;;;
  fun st => (Return (check_cost_limit cfg (log_file st)), st).

(* ===================================================================== *)
(** ** APIClient (api_client.py) *)
(* ===================================================================== *)

Record APIClient : Type := {
  agent_name : string;
  preferred_provider : option string;
  client_config : AgencyConfig;       (* self.config *)
  agent_config : AgentConfig
}.

(** The loop of [_call_with_retries] over the attempts that remain;
    [None] is falling off the end of the loop. *)
Fixpoint retry_loop (cfg : AgencyConfig) (w : World) (provider : Provider)
    (messages : list Message) (system_prompt : option string)
    (mt : option Z) (max_attempts : nat) (attempts : list nat)
    : M (option APIResponse) :=
  match attempts with
  | [] => ret None
  | attempt :: rest =>
      fun st =>
        match provider_call w provider messages system_prompt mt
                (emit (EvCall (kind provider) attempt) st) with
        | (Return response, st1) => (Return (Some response), st1)
        | (Raise e, st1) =>
            if (attempt <? max_attempts - 1)%nat then
              let wait_time :=
                Qpower (default 2%Q (retry_backoff_base cfg))
                  (Z.of_nat attempt) in
              retry_loop cfg w provider messages system_prompt mt
                max_attempts rest (emit (EvSleep wait_time) st1)
            else (Raise e, st1)
        end
  end.

Definition _call_with_retries (self : APIClient) (w : World)
    (provider : Provider) (messages : list Message)
    (system_prompt : option string) (mt : option Z) (max_attempts : nat)
    : M (option APIResponse) :=
  retry_loop (client_config self) w provider messages system_prompt mt
    max_attempts (seq 0 max_attempts).

Definition providers_to_try (self : APIClient) : list string :=
  let primary :=
    match truthy (preferred_provider self) with
    | Some p => p
    | None => default "claude" (agent_provider (agent_config self))
    end in
  let fallbacks := fallback_providers (agent_config self) in
  ([primary] ++ fallbacks)%list.

(** The body of the [try] block for one provider. *)
Definition try_provider (self : APIClient) (w : World)
    (messages : list Message) (system_prompt : option string)
    (mt : option Z) (provider_name : string) : M APIResponse :=
  match providers (client_config self) !! provider_name with
  | None => raise (ValueError (ProviderNotInConfig provider_name))
  | Some provider_config =>
      key <- CredentialsManager_get (client_config self) w provider_name ;;
      provider <-
        lift (ProviderFactory_create w provider_name provider_config key) ;;
      response <-
        _call_with_retries self w provider messages system_prompt mt 3 ;;
      match response with
      | None => raise AttributeError      (* None.input_tokens *)
      | Some response =>
          UsageTracker_log_request w (agent_name self) provider_name
            (input_tokens response) (output_tokens response)
            (resp_cost_usd response) success (Some (MetaMaxTokens mt)) ;;;
          ret response
      end
  end.

(** The [for] loop of [call] over the providers that remain, with its two
    [except] clauses; [None] is falling off the end of the loop. *)
Fixpoint for_providers (self : APIClient) (w : World)
    (messages : list Message) (system_prompt : option string)
    (mt : option Z) (to_try remaining : list string)
    : M (option APIResponse) :=
  match remaining with
  | [] => ret None
  | provider_name :: rest =>
      fun st =>
        match try_provider self w messages system_prompt mt provider_name
                (emit (EvTry provider_name) st) with
        | (Return response, st1) => (Return (Some response), st1)
        | (Raise e, st1) =>
            if is_ValueError e then (Raise e, st1)
            else if String.eqb provider_name (List.last to_try "") then
              (UsageTracker_log_request w (agent_name self) provider_name
                 0%Z 0%Z 0%Q failure (Some (MetaError e)) ;;;
               raise (AllProvidersFailed e)) st1
            else
              for_providers self w messages system_prompt mt to_try rest st1
        end
  end.

Definition call (self : APIClient) (w : World) (messages : list Message)
    (system_prompt : option string) (mt : option Z)
    : M (option APIResponse) :=
  daily <-
    UsageTracker_check_requests_per_agent_per_day (client_config self) w
      (agent_name self) ;;
  let '(within_daily_limit, requests_today, limit) := daily in
  if negb within_daily_limit then
    raise (ValueError
             (DailyLimitExceeded (agent_name self) requests_today limit))
  else
    cost_check <- UsageTracker_check_cost_limit (client_config self) ;;
    let '(within_cost_limit, c, limit) := cost_check in
    if negb within_cost_limit then
      raise (ValueError (CostLimitExceeded c limit))
    else
      for_providers self w messages system_prompt mt
        (providers_to_try self) (providers_to_try self).

Open Scope list_scope.

(* ===================================================================== *)
(** ** Reading a trace *)
(* ===================================================================== *)

(** The entries written, the providers tried, the invocations of
    [provider.call] and the sleeps of a trace, each in order. *)
Definition logged (tr : list Event) : list UsageLogEntry :=
  omap (fun ev => match ev with EvLog e => Some e | _ => None end) tr.

Definition tried (tr : list Event) : list string :=
  omap (fun ev => match ev with EvTry p => Some p | _ => None end) tr.

Definition calls_made (tr : list Event) : list (ProviderKind * nat) :=
  omap (fun ev => match ev with EvCall k i => Some (k, i) | _ => None end) tr.

Definition sleeps (tr : list Event) : list Q :=
  omap (fun ev => match ev with EvSleep s => Some s | _ => None end) tr.

Arguments logged : simpl never.
Arguments tried : simpl never.
Arguments calls_made : simpl never.
Arguments sleeps : simpl never.

(** The state in which the [for] loop of [call] starts when both limit
    checks pass. *)
Definition after_checks (st : State) : State :=
  emit EvCheckCost (count_clock_read (emit EvCheckDaily st)).

(** The kinds of failure of the specification's taxonomy, by raise site:
    the two limit checks; the configuration look-ups of [call] and of the
    factory; the credential look-ups of the manager. *)
Inductive ErrorKind : Type :=
| LimitExceeded
| ConfigError
| CredentialError
| ProviderError.

Definition kind_of_ValueError (m : ValueErrorMsg) : ErrorKind :=
  match m with
  | DailyLimitExceeded _ _ _ | CostLimitExceeded _ _ => LimitExceeded
  | ProviderNotInConfig _ | UnknownProvider _ | ProviderNotEnabled _
  | AgentNotFound _ => ConfigError
  | CredentialProviderNotFound _ | NoApiKeyEnvVar _ | ApiKeyNotFound _ _ =>
      CredentialError
  | UpstreamValueError _ => ProviderError
  end.

(** The shape of the trace of [n] attempts on a provider of class [k]
    with backoff base [b], attempt indices starting at [i]: a sleep of
    [b ^ j] after attempt [j], except after the last one. *)
Fixpoint attempts_trace (k : ProviderKind) (b : Q) (i n : nat) : list Event :=
  match n with
  | O => []
  | S O => [EvCall k i]
  | S n' => EvCall k i :: EvSleep (Qpower b (Z.of_nat i))
              :: attempts_trace k b (S i) n'
  end.


(** What a run of the loop of [call] from [st] to [st'] with trace [new]
    amounts to, by its result: a response comes with its [success] entry,
    written last; [AllProvidersFailed] with the [failure] entry of the
    last provider of the list; a [ValueError] and falling off the loop
    with no entry at all. *)
Definition loop_outcome (self : APIClient) (w : World) (mt : option Z)
    (to_try : list string) (st st' : State) (new : list Event)
    (r : result (option APIResponse)) : Prop :=
  match r with
  | Return None =>
      logged new = [] /\ log_file st' = log_file st /\
      clock_reads st' = clock_reads st
  | Return (Some resp) =>
      exists body p,
        let e := new_log_entry (clock w (clock_reads st)) (agent_name self) p
                   (input_tokens resp) (output_tokens resp)
                   (resp_cost_usd resp) success (Some (MetaMaxTokens mt)) in
        new = body ++ [EvLog e] /\ logged body = [] /\
        last (tried new) = Some p /\
        log_file st' = FileLogs (_load_logs (log_file st) ++ [e]) /\
        resp_provider resp = lower p
  | Raise (ValueError m) =>
      logged new = [] /\ log_file st' = log_file st
  | Raise (AllProvidersFailed e0) =>
      is_ValueError e0 = false /\
      exists body p,
        let e := new_log_entry (clock w (clock_reads st)) (agent_name self) p
                   0 0 0 failure (Some (MetaError e0)) in
        new = body ++ [EvLog e] /\ logged body = [] /\
        last (tried new) = Some p /\ p = List.last to_try "" /\
        log_file st' = FileLogs (_load_logs (log_file st) ++ [e])
  | Raise _ => False
  end.

(** The two limit checks as [call] makes them in state [st]. *)
Definition daily_check (self : APIClient) (w : World) (st : State)
    : bool * Z * Z :=
  check_requests_per_agent_per_day (client_config self)
    (date (clock w (clock_reads st))) (log_file st) (agent_name self).

Definition cost_check (self : APIClient) (st : State) : bool * Q * Q :=
  check_cost_limit (client_config self) (log_file st).

(* ===================================================================== *)
(** ** A sample configuration *)
(* ===================================================================== *)

Definition sample_billing : Billing :=
  {| input_per_mtok := Some 3%Q; output_per_mtok := Some 15%Q |}.

Definition sample_claude : ProviderConfig :=
  {| model := "claude-sonnet"; enabled := true; max_tokens := Some 4096%Z;
     api_key_env_var := Some "ANTHROPIC_API_KEY"; billing := sample_billing |}.

Definition sample_chatgpt : ProviderConfig :=
  {| model := "gpt-4"; enabled := true; max_tokens := None;
     api_key_env_var := Some "OPENAI_API_KEY"; billing := sample_billing |}.

Definition sample_agent : AgentConfig :=
  {| agent_provider := Some "claude"; fallback_providers := ["chatgpt"];
     requests_per_day := Some 10%Z |}.

Definition sample_config : AgencyConfig :=
  {| providers := {[ "claude" := sample_claude; "chatgpt" := sample_chatgpt ]};
     agents := {[ "math-agent" := sample_agent ]};
     hard_limit_dollars := Some 50%Q;
     retry_backoff_base := Some 2%Q |}.

Definition sample_client : APIClient :=
  {| agent_name := "math-agent"; preferred_provider := None;
     client_config := sample_config; agent_config := sample_agent |}.

Definition sample_clock (n : nat) : DateTime :=
  {| date := 739000; time_of_day := Z.of_nat n |}.

(** Both keys set, both SDKs installed; every request is answered. *)
Definition sample_world : World :=
  {| environ := {[ "ANTHROPIC_API_KEY" := "sk-ant"; "OPENAI_API_KEY" := "sk-oa" ]};
     upstream := fun _ _ => UpstreamReturn "ok" 1000 500;
     clock := sample_clock;
     openai_installed := true;
     xai_grok_installed := false |}.

(** The same, with the first [n] requests failing in transport. *)
Definition failing_first (n : nat) : World :=
  {| environ := environ sample_world;
     upstream := fun i _ =>
       if (i <? n)%nat then UpstreamRaise false "connection reset"
       else UpstreamReturn "ok" 1000 500;
     clock := sample_clock;
     openai_installed := true;
     xai_grok_installed := false |}.

Definition fresh_state (f : LogFile) : State :=
  {| log_file := f; _cache := ∅; requests_sent := 0; clock_reads := 0;
     trace := [] |}.

Definition sample_entry (day : Z) (c : Q) (s : Status) : UsageLogEntry :=
  {| timestamp := {| date := day; time_of_day := 0 |}; agent := "math-agent";
     entry_provider := "claude"; tokens_in := 10; tokens_out := 10;
     entry_total_tokens := 20; cost_usd := c; status := s;
     metadata := None |}.

(** Ten requests of the sample agent today: its daily limit is reached. *)
Definition busy_day : LogFile :=
  FileLogs (replicate 10 (sample_entry 739000 1 success)).

(** Fifty dollars spent yesterday: the cost limit is reached exactly. *)
Definition spent_out : LogFile :=
  FileLogs [sample_entry 738999 20 success; sample_entry 738999 7 failure;
            sample_entry 738999 30 success].

Definition sample_provider : Provider :=
  {| kind := ClaudeProvider; config := sample_claude; api_key := "sk-ant" |}.

(** A provider billed a ten-thousandth of a dollar per million tokens. *)
Definition cheap_provider : Provider :=
  {| kind := ClaudeProvider;
     config :=
       {| model := "claude-haiku"; enabled := true; max_tokens := None;
          api_key_env_var := Some "ANTHROPIC_API_KEY";
          billing := {| input_per_mtok := Some (1 # 10000);
                        output_per_mtok := Some (1 # 10000) |} |};
     api_key := "sk-ant" |}.

(** A configuration whose provider keys differ in case only: the agent
    names "Claude", whose entry is enabled; the entry "claude" carries the
    name of the key variable. *)
Definition mixed_case_agent : AgentConfig :=
  {| agent_provider := Some "Claude"; fallback_providers := [];
     requests_per_day := None |}.

Definition mixed_case_config : AgencyConfig :=
  {| providers := {[ "Claude" := sample_claude; "claude" := sample_claude ]};
     agents := {[ "math-agent" := mixed_case_agent ]};
     hard_limit_dollars := None;
     retry_backoff_base := None |}.

Definition mixed_case_client : APIClient :=
  {| agent_name := "math-agent"; preferred_provider := None;
     client_config := mixed_case_config; agent_config := mixed_case_agent |}.

(** The causes of a resolution error for provider [p] in state [st]: its
    name is absent from the providers map; it is disabled; no
    [api_key_env_var] is configured for it; or that environment variable
    is unset or empty. The credential manager reads the entry of the
    lower-cased name, and only when the key is not cached yet. *)
Definition resolution_fails (self : APIClient) (w : World) (st : State)
    (p : string) : Prop :=
  let cfg := client_config self in
  providers cfg !! p = None
  \/ (exists pc, providers cfg !! p = Some pc /\ enabled pc = false)
  \/ (_cache st !! lower p = None /\
      exists pc, providers cfg !! lower p = Some pc /\
                 truthy (api_key_env_var pc) = None)
  \/ (_cache st !! lower p = None /\
      exists pc env_var,
        providers cfg !! lower p = Some pc /\
        truthy (api_key_env_var pc) = Some env_var /\
        truthy (environ w !! env_var) = None).

(** An agent whose primary provider is disabled, with an enabled
    fallback. *)
Definition disabled_chatgpt : ProviderConfig :=
  {| model := "gpt-4"; enabled := false; max_tokens := None;
     api_key_env_var := Some "OPENAI_API_KEY"; billing := sample_billing |}.

Definition disabled_primary_agent : AgentConfig :=
  {| agent_provider := Some "chatgpt"; fallback_providers := ["claude"];
     requests_per_day := Some 10%Z |}.

Definition disabled_primary_config : AgencyConfig :=
  {| providers := {[ "claude" := sample_claude; "chatgpt" := disabled_chatgpt ]};
     agents := {[ "math-agent" := disabled_primary_agent ]};
     hard_limit_dollars := Some 50%Q;
     retry_backoff_base := Some 2%Q |}.

Definition disabled_primary_client : APIClient :=
  {| agent_name := "math-agent"; preferred_provider := None;
     client_config := disabled_primary_config;
     agent_config := disabled_primary_agent |}.

(** Only the key of the enabled provider is set. *)
Definition claude_only_world : World :=
  {| environ := {[ "ANTHROPIC_API_KEY" := "sk-ant" ]};
     upstream := fun _ _ => UpstreamReturn "ok" 1000 500;
     clock := sample_clock;
     openai_installed := true;
     xai_grok_installed := false |}.

(** A provider object of the scaffolded Grok variant. *)
Definition grok_provider : Provider :=
  {| kind := GrokProvider;
     config :=
       {| model := "grok-1"; enabled := true; max_tokens := None;
          api_key_env_var := Some "GROK_API_KEY";
          billing := {| input_per_mtok := None; output_per_mtok := None |} |};
     api_key := "grok-key" |}.

(* ===================================================================== *)
(** ** Several callers of log_request on one file *)
(* ===================================================================== *)

(** [log_request] builds its entry, reads the whole file
    ([logs = self._load_logs()]), appends, and writes the whole file back
    ([json.dump(logs, f)]); it takes no lock. A caller is before its read,
    between its read and its write, or done. *)
Inductive Writer : Type :=
| Ready (entry : UsageLogEntry)
| Loaded (logs : list UsageLogEntry) (entry : UsageLogEntry)
| Done.

(** The next step of one caller on the shared file. *)
Definition step_writer (f : LogFile) (wr : Writer) : LogFile * Writer :=
  match wr with
  | Ready entry => (f, Loaded (_load_logs f) entry)
  | Loaded logs entry => (FileLogs (logs ++ [entry]), Done)
  | Done => (f, Done)
  end.

(** A schedule names, step by step, the caller that moves. *)
Fixpoint run_schedule (schedule : list nat) (f : LogFile)
    (writers : list Writer) : LogFile * list Writer :=
  match schedule with
  | [] => (f, writers)
  | i :: rest =>
      match writers !! i with
      | None => run_schedule rest f writers
      | Some wr =>
          let '(f', wr') := step_writer f wr in
          run_schedule rest f' (<[i := wr']> writers)
      end
  end.

(** The callers one after the other: each reads and writes before the
    next one starts. *)
Definition serial_schedule (first n : nat) : list nat :=
  flat_map (fun i => [i; i]) (seq first n).

(** Both callers read before either writes. *)
Definition interleaved_schedule : list nat := [0; 1; 0; 1]%nat.

(* ===================================================================== *)
(** ** Reading the usage log *)
(* ===================================================================== *)

Definition is_success (log : UsageLogEntry) : bool :=
  match status log with
  | success => true
  | failure => false
  end.

(** The [success] entries of a log filed under [k] by [key] (the provider
    or the agent of an entry). *)
Definition group (key : UsageLogEntry -> string) (k : string)
    (logs : list UsageLogEntry) : list UsageLogEntry :=
  List.filter (fun log => is_success log && String.eqb (key log) k) logs.

Definition sum_tokens (logs : list UsageLogEntry) : Z :=
  fold_right (fun log acc => (entry_total_tokens log + acc)%Z) 0%Z logs.

Definition sum_cost (logs : list UsageLogEntry) : Q :=
  fold_right (fun log acc => (cost_usd log + acc)%Q) 0%Q logs.

(** The entries of agent [name] dated [day], whatever their status. *)
Definition requests_on (day : Z) (name : string)
    (logs : list UsageLogEntry) : list UsageLogEntry :=
  List.filter
    (fun log => Z.eqb (date (timestamp log)) day && String.eqb (agent log) name)
    logs.

(** The number of requests of the client's agent counted for [day]. *)
Definition counted_on (self : APIClient) (day : Z) (st : State) : Z :=
  Z.of_nat (length (requests_on day (agent_name self)
                      (_load_logs (log_file st)))).

(* ===================================================================== *)
(** ** CredentialsManager.validate_all, ProviderFactory listings *)
(* ===================================================================== *)

Inductive Reason : Type :=
| ReasonDisabled                     (* "disabled" *)
| ReasonNoEnvVar                     (* "no env_var configured" *)
| ReasonReady                        (* "ready" *)
| ReasonSet (env_var : string).      (* f"set {env_var}" *)

(** One value of the dict [validate_all] returns. *)
Record Availability : Type := {
  available : bool;
  avail_env_var : option string;     (* "env_var", when present *)
  reason : Reason
}.

(** The body of the loop of [validate_all] for one provider. *)
Definition validate_provider (w : World) (pc : ProviderConfig)
    : Availability :=
  if negb (enabled pc) then
    {| available := false; avail_env_var := None; reason := ReasonDisabled |}
  else
    match truthy (api_key_env_var pc) with
    | None =>
        {| available := false; avail_env_var := None;
           reason := ReasonNoEnvVar |}
    | Some env_var =>
        let api_key_exists :=
          match truthy (environ w !! env_var) with
          | Some _ => true
          | None => false
          end in
        {| available := api_key_exists; avail_env_var := Some env_var;
           reason := if api_key_exists then ReasonReady
                     else ReasonSet env_var |}
    end.

(** [CredentialsManager.validate_all]: one result per configured
    provider (the order of the dict is not kept). *)
Definition CredentialsManager_validate_all (cfg : AgencyConfig) (w : World)
    : gmap string Availability :=
  validate_provider w <$> providers cfg.

(** [ProviderFactory.list_available] *)
Definition ProviderFactory_list_available : list string :=
  ["claude"; "chatgpt"; "grok"].

(** [ProviderFactory.list_enabled]: the names of the providers whose
    config is enabled, in the order of the map. *)
Definition ProviderFactory_list_enabled (cfg : AgencyConfig) : list string :=
  map fst (List.filter (fun kv : string * ProviderConfig => enabled kv.2)
             (map_to_list (providers cfg))).

(* ===================================================================== *)
(** ** validate_api_key *)
(* ===================================================================== *)

(** The request of [validate_api_key]: ten tokens, one user message. *)
Definition test_request (self : Provider) : Request :=
  {| req_kind := kind self;
     req_api_key := api_key self;
     req_model := model (config self);
     req_max_tokens := 10;
     req_system := None;
     req_messages := [{| role := "user"; msg_content := "test" |}] |}.

(** [ClaudeProvider.validate_api_key], [ChatGPTProvider.validate_api_key]
    ([bool(response)] of a test call, [False] on any exception) and
    [GrokProvider.validate_api_key] ([False]). *)
Definition validate_api_key (w : World) (self : Provider) : M bool :=
  match kind self with
  | ClaudeProvider | ChatGPTProvider =>
      fun st =>
        match send w (test_request self) st with
        | (Return _, st') => (Return true, st')
        | (Raise _, st') => (Return false, st')
        end
  | GrokProvider => ret false
  end.

(* ===================================================================== *)
(** ** More sample data *)
(* ===================================================================== *)

(** Every request is refused by the SDK with a [ValueError]. *)
Definition refusing_world : World :=
  {| environ := environ sample_world;
     upstream := fun _ _ => UpstreamRaise true "max_tokens too large";
     clock := sample_clock;
     openai_installed := true;
     xai_grok_installed := false |}.

(** A Claude provider without billing rates. *)
Definition unbilled_provider : Provider :=
  {| kind := ClaudeProvider;
     config :=
       {| model := "claude-sonnet"; enabled := true; max_tokens := None;
          api_key_env_var := Some "ANTHROPIC_API_KEY";
          billing := {| input_per_mtok := None; output_per_mtok := None |} |};
     api_key := "sk-ant" |}.

(** An agent whose list of fallbacks ends with its primary provider. *)
Definition circular_agent : AgentConfig :=
  {| agent_provider := Some "claude";
     fallback_providers := ["chatgpt"; "claude"];
     requests_per_day := None |}.

Definition circular_config : AgencyConfig :=
  {| providers := {[ "claude" := sample_claude; "chatgpt" := sample_chatgpt ]};
     agents := {[ "math-agent" := circular_agent ]};
     hard_limit_dollars := None;
     retry_backoff_base := None |}.

Definition circular_client : APIClient :=
  {| agent_name := "math-agent"; preferred_provider := None;
     client_config := circular_config; agent_config := circular_agent |}.

(* ===================================================================== *)
(** ** Costs in binary64 *)
(* ===================================================================== *)

(** The binary64 value nearest to [n / d], ties to even. The quotient is
    taken with more bits than a float keeps, and one more bit is set when
    the division leaves a remainder, so that the rounding of the quotient
    is the rounding of [n / d]. *)
Definition nearest_binary64 (negative : bool) (n d : positive) : spec_float :=
  let k := Z.max 0 (Z.log2 (Z.pos d) - Z.log2 (Z.pos n) + 56) in
  let quotient := (Z.pos n * 2 ^ k / Z.pos d)%Z in
  let sticky := if (Z.pos n * 2 ^ k mod Z.pos d =? 0)%Z then 0%Z else 1%Z in
  let m := (2 * quotient + sticky)%Z in
  binary_normalize prec emax (if negative then (- m)%Z else m) (- (k + 1))
    false.

(** The float that [json.load] makes of a numeral, and [float(n)] of an
    integer. *)
Definition binary64 (q : Q) : float :=
  match Qnum q with
  | Z0 => PrimFloat.zero
  | Zpos n => SF2Prim (nearest_binary64 false n (Qden q))
  | Zneg n => SF2Prim (nearest_binary64 true n (Qden q))
  end.

(** The exact value of a float that is finite. *)
Definition float_value (x : float) : option Q :=
  match Prim2SF x with
  | S754_zero _ => Some 0%Q
  | S754_finite s m e =>
      Some (inject_Z (if s then Z.neg m else Z.pos m) * Qpower 2 e)%Q
  | S754_infinity _ | S754_nan => None
  end.

(** [summary["total_cost"]] as the loop of [get_usage_summary] computes
    it: from [0.0], one rounded addition per [success] entry, in the order
    of the log. *)
Definition total_cost64 (logs : list UsageLogEntry) : float :=
  fold_left
    (fun total log =>
       match status log with
       | success => PrimFloat.add total (binary64 (cost_usd log))
       | failure => total
       end)
    logs PrimFloat.zero.

(** [UsageTracker.check_cost_limit] on floats. The limit is taken as the
    float of the declared return type: a limit given as an integer is
    compared by its value, which is that float for every integer below
    [2 ^ 53]. *)
Definition check_cost_limit64 (cfg : AgencyConfig) (f : LogFile)
    : bool * float * float :=
  let limit := binary64 (default 100%Q (hard_limit_dollars cfg)) in
  let current := total_cost64 (_load_logs f) in
  (PrimFloat.ltb current limit, current, limit).

Definition UsageTracker_check_cost_limit64 (cfg : AgencyConfig)
    : M (bool * float * float) :=
  modify (emit EvCheckCost) ;;;
  fun st => (Return (check_cost_limit64 cfg (log_file st)), st).

(** The number that a message prints for a float, by its value; the
    infinities and nan, which print by name, are not told apart here. *)
Definition shown (x : float) : Q := default 0%Q (float_value x).

(** [APIClient.call] with the cost check on floats. *)
Definition call64 (self : APIClient) (w : World) (messages : list Message)
    (system_prompt : option string) (mt : option Z)
    : M (option APIResponse) :=
  daily <-
    UsageTracker_check_requests_per_agent_per_day (client_config self) w
      (agent_name self) ;;
  let '(within_daily_limit, requests_today, limit) := daily in
  if negb within_daily_limit then
    raise (ValueError
             (DailyLimitExceeded (agent_name self) requests_today limit))
  else
    cost_check <- UsageTracker_check_cost_limit64 (client_config self) ;;
    let '(within_cost_limit, c, limit) := cost_check in
    if negb within_cost_limit then
      raise (ValueError (CostLimitExceeded (shown c) (shown limit)))
    else
      for_providers self w messages system_prompt mt
        (providers_to_try self) (providers_to_try self).

(** The cost check as [call64] makes it in state [st]. *)
Definition cost_check64 (self : APIClient) (st : State)
    : bool * float * float :=
  check_cost_limit64 (client_config self) (log_file st).

(** Three successful requests whose costs add up to fifty dollars. *)
Definition at_the_limit : LogFile :=
  FileLogs [sample_entry 738999 (3847 # 100) success;
            sample_entry 738999 (391 # 100) success;
            sample_entry 738999 (762 # 100) success].

(* ===================================================================== *)
(** ** The usage log as a file *)
(* ===================================================================== *)

(** What [_load_logs] meets at [track_file]. *)
Inductive TrackFile : Type :=
| NoFile                (* not self.log_file.exists() *)
| OpenFails             (* open or read raises IOError *)
| NotText               (* bytes that are no text in the encoding of open *)
| NotJSON               (* text that json.load rejects *)
| JSONLogs (logs : list UsageLogEntry).   (* a list of entries *)

(** The outcome of a method of the tracker: its value, or the
    [UnicodeDecodeError] of [json.load], which the [except] clause of
    [_load_logs] does not name. *)
Inductive Reading (A : Type) : Type :=
| Reads (a : A)
| RaisesUnicodeDecodeError.
Arguments Reads {A} a.
Arguments RaisesUnicodeDecodeError {A}.

Definition _load_logs_file (d : TrackFile) : Reading (list UsageLogEntry) :=
  match d with
  | NoFile => Reads []              (* not self.log_file.exists() *)
  | OpenFails => Reads []           (* except IOError *)
  | NotText => RaisesUnicodeDecodeError
  | NotJSON => Reads []             (* except json.JSONDecodeError *)
  | JSONLogs logs => Reads logs
  end.

(** Every method of the tracker starts with [logs = self._load_logs()]
    and reads the file in no other way. *)
Definition on_logs {A : Type} (method : LogFile -> A) (d : TrackFile)
    : Reading A :=
  match _load_logs_file d with
  | Reads logs => Reads (method (FileLogs logs))
  | RaisesUnicodeDecodeError => RaisesUnicodeDecodeError
  end.

Definition get_usage_summary_file : TrackFile -> Reading Summary :=
  on_logs get_usage_summary.

Definition check_cost_limit_file (cfg : AgencyConfig)
    : TrackFile -> Reading (bool * float * float) :=
  on_logs (check_cost_limit64 cfg).

Definition check_requests_per_agent_per_day_file (cfg : AgencyConfig)
    (today : Z) (d : TrackFile) (agent_name : string)
    : Reading (bool * Z * Z) :=
  on_logs (fun f => check_requests_per_agent_per_day cfg today f agent_name) d.

Definition log_request_file (now : DateTime) (agent_name provider : string)
    (tokens_in tokens_out : Z) (cost : Q) (status : Status)
    (metadata : option Metadata) : TrackFile -> Reading LogFile :=
  on_logs
    (log_request now agent_name provider tokens_in tokens_out cost status
       metadata).

(** The file behind a [LogFile]. *)
Definition track_file (f : LogFile) : TrackFile :=
  match f with
  | FileMissing => NoFile
  | FileUnreadable => OpenFails
  | FileInvalidJSON => NotJSON
  | FileLogs logs => JSONLogs logs
  end.


(* ===================================================================== *)
(** ** A trace by provider tried *)
(* ===================================================================== *)



(* ===================================================================== *)
(** ** Rounding *)
(* ===================================================================== *)

Lemma round_half_even_near (y : Q) :
  (- (1 # 2) <= inject_Z (round_half_even y) - y)%Q /\
  (inject_Z (round_half_even y) - y <= 1 # 2)%Q.
Proof.
  destruct y as [n d]. unfold round_half_even. cbn [Qnum Qden].
  pose proof (Z.div_mod n (Z.pos d) ltac:(lia)) as Hdm.
  pose proof (Z.mod_pos_bound n (Z.pos d) ltac:(lia)) as Hr.
  set (f := (n / Z.pos d)%Z) in *. set (r := (n mod Z.pos d)%Z) in *.
  assert (Hcases :
    forall z : Z,
      (z = f /\ 2 * r <= Z.pos d \/ z = f + 1 /\ Z.pos d <= 2 * r)%Z ->
      (- (1 # 2) <= inject_Z z - (n # d))%Q /\
      (inject_Z z - (n # d) <= 1 # 2)%Q).
  { intros z Hz. unfold Qle, Qminus, Qplus, Qopp, inject_Z. cbn [Qnum Qden].
    rewrite ?Pos2Z.inj_mul. lia. }
  apply Hcases.
  destruct (Z.compare_spec (2 * r) (Z.pos d)) as [He|Hl|Hg].
  - destruct (Z.even f); lia.
  - lia.
  - lia.
Qed.

Lemma round_half_even_integral (y : Q) (z : Z) :
  (y == inject_Z z)%Q -> round_half_even y = z.
Proof.
  destruct y as [n d]. unfold Qeq, inject_Z, round_half_even. cbn [Qnum Qden].
  intros H. rewrite Z.mul_1_r in H. subst n.
  rewrite Z.div_mul by lia. rewrite Z.mod_mul by lia.
  change (2 * 0)%Z with 0%Z. reflexivity.
Qed.

Lemma scale_pos (ndigits : nat) : (0 < 10 ^ Z.of_nat ndigits)%Z.
Proof. apply Z.pow_pos_nonneg; lia. Qed.

(** The rounded value has [ndigits] decimals: scaled, it is the integer
    nearest to the scaled argument. *)
Lemma py_round_scaled (x : Q) (ndigits : nat) :
  (py_round x ndigits * inject_Z (10 ^ Z.of_nat ndigits) ==
   inject_Z (round_half_even (x * inject_Z (10 ^ Z.of_nat ndigits))))%Q.
Proof.
  unfold py_round. pose proof (scale_pos ndigits) as Hs.
  set (s := (10 ^ Z.of_nat ndigits)%Z) in *.
  set (z := round_half_even (x * inject_Z s)).
  unfold Qeq, Qmult, inject_Z. cbn [Qnum Qden].
  rewrite Pos.mul_1_r, Z2Pos.id by lia. lia.
Qed.

Lemma py_round_near (x : Q) (ndigits : nat) :
  (- (1 # 2) <= (py_round x ndigits - x) * inject_Z (10 ^ Z.of_nat ndigits))%Q /\
  ((py_round x ndigits - x) * inject_Z (10 ^ Z.of_nat ndigits) <= 1 # 2)%Q.
Proof.
  pose proof (py_round_scaled x ndigits) as Hsc.
  pose proof (round_half_even_near (x * inject_Z (10 ^ Z.of_nat ndigits))) as Hn.
  set (s := inject_Z (10 ^ Z.of_nat ndigits)) in *.
  assert (Heq : ((py_round x ndigits - x) * s ==
                 inject_Z (round_half_even (x * s)) - x * s)%Q).
  { rewrite <- Hsc. ring. }
  rewrite Heq. exact Hn.
Qed.

Lemma py_round_exact (x : Q) (ndigits : nat) (z : Z) :
  (x * inject_Z (10 ^ Z.of_nat ndigits) == inject_Z z)%Q ->
  (py_round x ndigits == x)%Q.
Proof.
  intros Hz. pose proof (py_round_scaled x ndigits) as Hsc.
  rewrite (round_half_even_integral _ _ Hz) in Hsc.
  pose proof (scale_pos ndigits) as Hs.
  assert (Hne : ~ (inject_Z (10 ^ Z.of_nat ndigits) == 0)%Q).
  { unfold Qeq, inject_Z. cbn [Qnum Qden]. lia. }
  apply (Qmult_inj_r _ _ _ Hne). rewrite Hsc, Hz. reflexivity.
Qed.

(* ===================================================================== *)
(** ** calculate_cost *)
(* ===================================================================== *)

Lemma calculate_cost_value (self : Provider) (tin tout : Z) (ri ro : Q) :
  input_per_mtok (billing (config self)) = Some ri ->
  output_per_mtok (billing (config self)) = Some ro ->
  calculate_cost self tin tout =
    Return (py_round (token_cost tin ri + token_cost tout ro) 6).
Proof.
  intros Hi Ho. unfold calculate_cost.
  destruct (kind self); rewrite Hi, Ho; reflexivity.
Qed.

Lemma token_cost_formula (n : Z) (rate : Q) :
  (token_cost n rate == inject_Z n * rate / 1000000 * 1000)%Q.
Proof. unfold token_cost. field. Qed.

(** C3 (as amended). For each of the three provider variants with both
    billing rates configured, and for all token counts, [calculate_cost]
    returns the value of
    [inputTokens * input_per_mtok / 1_000_000 * 1000 +
     outputTokens * output_per_mtok / 1_000_000 * 1000]
    rounded to six decimals: the result is a multiple of 10^-6 at most half
    of 10^-6 away from the formula. The scale is the same for every
    variant. When both rates are multiples of 1/1000 the result is the
    formula itself, and for 1000 and 500 tokens at rates 3 and 15 it is
    10.5. *)
Theorem calculate_cost_formula (self : Provider) (tin tout : Z)
    (rate_in rate_out : Q) :
  input_per_mtok (billing (config self)) = Some rate_in ->
  output_per_mtok (billing (config self)) = Some rate_out ->
  let formula :=
    (inject_Z tin * rate_in / 1000000 * 1000 +
     inject_Z tout * rate_out / 1000000 * 1000)%Q in
  exists (c : Q) (micro : Z),
    calculate_cost self tin tout = Return c /\
    (c * 1000000 == inject_Z micro)%Q /\
    (- (1 # 2) <= (c - formula) * 1000000)%Q /\
    ((c - formula) * 1000000 <= 1 # 2)%Q /\
    ((exists k_in k_out : Z,
        (rate_in == inject_Z k_in / 1000)%Q /\
        (rate_out == inject_Z k_out / 1000)%Q) ->
     (c == formula)%Q) /\
    (tin = 1000%Z -> tout = 500%Z ->
     (rate_in == 3)%Q -> (rate_out == 15)%Q -> (c == 21 # 2)%Q).
Proof.
  intros Hi Ho formula.
  set (x := (token_cost tin rate_in + token_cost tout rate_out)%Q).
  assert (Hx : (x == formula)%Q).
  { unfold x, formula. rewrite !token_cost_formula. reflexivity. }
  assert (Hexact : (exists k_in k_out : Z,
        (rate_in == inject_Z k_in / 1000)%Q /\
        (rate_out == inject_Z k_out / 1000)%Q) -> (py_round x 6 == formula)%Q).
  { intros (k_in & k_out & Hki & Hko). rewrite <- Hx.
    apply (py_round_exact x 6 (tin * k_in + tout * k_out)%Z).
    change (inject_Z (10 ^ Z.of_nat 6)) with 1000000%Q.
    unfold x, token_cost. rewrite Hki, Hko.
    rewrite inject_Z_plus, !inject_Z_mult. field. }
  exists (py_round x 6), (round_half_even (x * 1000000)).
  split; [apply calculate_cost_value; assumption|].
  split; [apply (py_round_scaled x 6)|].
  pose proof (py_round_near x 6) as [Hlo Hhi].
  change (inject_Z (10 ^ Z.of_nat 6)) with 1000000%Q in Hlo, Hhi.
  assert (Hd : ((py_round x 6 - formula) * 1000000 ==
                (py_round x 6 - x) * 1000000)%Q).
  { rewrite <- Hx. reflexivity. }
  split; [rewrite Hd; exact Hlo|]. split; [rewrite Hd; exact Hhi|].
  split; [exact Hexact|].
  intros -> -> H3 H15. rewrite Hexact.
  - unfold formula. rewrite H3, H15. reflexivity.
  - exists 3000%Z, 15000%Z. rewrite H3, H15. split; reflexivity.
Qed.

Lemma calculate_cost_formula_witness :
  exists c : Q,
    calculate_cost sample_provider 1000 500 = Return c /\ (c == 21 # 2)%Q.
Proof.
  destruct (calculate_cost_formula sample_provider 1000 500 3 15
              eq_refl eq_refl)
    as (c & micro & Hc & _ & _ & _ & _ & Hex).
  exists c. split; [exact Hc|].
  apply Hex; reflexivity.
Defined.

(** One input token and one output token at a rate of 0.0001 cost
    0.0000002 by the formula; [calculate_cost] returns 0. *)
Lemma calculate_cost_rounds_away :
  calculate_cost cheap_provider 1 1 = Return (0 # 1000000) /\
  ~ (0 # 1000000 ==
     inject_Z 1 * (1 # 10000) / 1000000 * 1000 +
     inject_Z 1 * (1 # 10000) / 1000000 * 1000)%Q.
Proof.
  split; [reflexivity|]. intros H. vm_compute in H. discriminate H.
Qed.

(* ===================================================================== *)
(** ** What each operation leaves untouched *)
(* ===================================================================== *)

Lemma logged_app (a b : list Event) : logged (a ++ b) = logged a ++ logged b.
Proof. apply omap_app. Qed.

Lemma tried_app (a b : list Event) : tried (a ++ b) = tried a ++ tried b.
Proof. apply omap_app. Qed.

Lemma PROVIDERS_name (s : string) (k : ProviderKind) :
  PROVIDERS !! s = Some k -> provider_name_of k = s.
Proof.
  unfold PROVIDERS. intros H.
  destruct (decide (s = "claude")) as [->|N1]; [simplify_map_eq; reflexivity|].
  destruct (decide (s = "chatgpt")) as [->|N2]; [simplify_map_eq; reflexivity|].
  destruct (decide (s = "grok")) as [->|N3]; [simplify_map_eq; reflexivity|].
  simplify_map_eq.
Qed.

Lemma CredentialsManager_get_frame cfg w p st r st' :
  CredentialsManager_get cfg w p st = (r, st') ->
  log_file st' = log_file st /\ trace st' = trace st /\
  clock_reads st' = clock_reads st /\ requests_sent st' = requests_sent st.
Proof.
  unfold CredentialsManager_get. intros H.
  repeat match type of H with
         | context [match ?x with _ => _ end] => destruct x
         end; inversion H; subst; auto.
Qed.

Lemma send_frame w rq st r st' :
  send w rq st = (r, st') ->
  st' = count_request st.
Proof.
  unfold send. intros H.
  repeat match type of H with
         | context [match ?x with _ => _ end] => destruct x
         end; inversion H; subst; auto.
Qed.

Lemma provider_call_frame w self msgs sp mt st r st' :
  provider_call w self msgs sp mt st = (r, st') ->
  log_file st' = log_file st /\ trace st' = trace st /\
  clock_reads st' = clock_reads st /\ _cache st' = _cache st /\
  (forall resp, r = Return resp ->
     resp_provider resp = provider_name_of (kind self)).
Proof.
  unfold provider_call. intros H.
  destruct (kind self); unfold bind, lift, ret, raise in H.
  - match type of H with context [send ?w ?rq ?s] =>
      destruct (send w rq s) as [[[[text tin] tout]|e] s1] eqn:Hs end;
      apply send_frame in Hs; subst s1.
    + destruct (calculate_cost self tin tout); inversion H; subst;
        repeat split; auto; intros resp [= <-]; reflexivity.
    + inversion H; subst. repeat split; auto. discriminate.
  - match type of H with context [send ?w ?rq ?s] =>
      destruct (send w rq s) as [[[[text tin] tout]|e] s1] eqn:Hs end;
      apply send_frame in Hs; subst s1.
    + destruct (calculate_cost self tin tout); inversion H; subst;
        repeat split; auto; intros resp [= <-]; reflexivity.
    + inversion H; subst. repeat split; auto. discriminate.
  - inversion H; subst. repeat split; auto. discriminate.
Qed.

Lemma GrokProvider_call_raises w self msgs sp mt st :
  kind self = GrokProvider ->
  provider_call w self msgs sp mt st = (Raise NotImplementedError, st).
Proof. intros Hk. unfold provider_call. rewrite Hk. reflexivity. Qed.

(** The retry loop writes no log entry, tries no other provider and reads
    no clock; what it adds to the trace are calls and sleeps. *)
Lemma retry_loop_frame cfg w self msgs sp mt n attempts :
  forall st r st',
  retry_loop cfg w self msgs sp mt n attempts st = (r, st') ->
  log_file st' = log_file st /\ clock_reads st' = clock_reads st /\
  _cache st' = _cache st /\
  (exists new, trace st' = trace st ++ new /\ logged new = [] /\ tried new = []) /\
  (forall resp, r = Return (Some resp) ->
     resp_provider resp = provider_name_of (kind self)).
Proof.
  induction attempts as [|attempt rest IH]; intros st r st' H; simpl in H.
  - inversion H; subst. repeat split; auto.
    + exists []. rewrite app_nil_r. auto.
    + discriminate.
  - destruct (provider_call w self msgs sp mt (emit (EvCall (kind self) attempt) st))
      as [[resp|e] s1] eqn:Hc;
      apply provider_call_frame in Hc as (Hl & Ht & Hk & Hca & Hp); simpl in *.
    + inversion H; subst. repeat split; auto.
      * exists [EvCall (kind self) attempt]. auto.
      * intros resp' [= <-]. auto.
    + destruct (attempt <? n - 1)%nat.
      * apply IH in H as (Hl' & Hk' & Hca' & (new & Ht' & Hlg & Htr) & Hp').
        simpl in *.
        split; [congruence|]. split; [congruence|]. split; [congruence|].
        split; [|exact Hp'].
        exists (EvCall (kind self) attempt :: EvSleep
                  (Qpower (default 2%Q (retry_backoff_base cfg)) (Z.of_nat attempt)) :: new).
        rewrite Ht', Ht. rewrite <- !app_assoc. simpl. auto.
      * inversion H; subst. repeat split; auto.
        -- exists [EvCall (kind self) attempt]. auto.
        -- discriminate.
Qed.

Lemma ProviderFactory_create_kind w p pc key prov :
  ProviderFactory_create w p pc key = Return prov ->
  provider_name_of (kind prov) = lower p /\ enabled pc = true /\
  config prov = pc /\ api_key prov = key.
Proof.
  unfold ProviderFactory_create.
  destruct (PROVIDERS !! lower p) as [cls|] eqn:Hcls; [|discriminate].
  destruct (enabled pc); [|discriminate]. simpl.
  apply PROVIDERS_name in Hcls. unfold provider_init.
  destruct cls; [| destruct (openai_installed w) | destruct (xai_grok_installed w)];
    intros [= <-]; auto.
Qed.

Lemma UsageTracker_log_request_eq w a p tin tout c s md st :
  UsageTracker_log_request w a p tin tout c s md st =
    (Return tt,
     emit (EvLog (new_log_entry (clock w (clock_reads st)) a p tin tout c s md))
       (set_log_file
          (FileLogs (_load_logs (log_file st) ++
             [new_log_entry (clock w (clock_reads st)) a p tin tout c s md]))
          (count_clock_read st))).
Proof. reflexivity. Qed.

(** One pass through the [try] block: a failure leaves the log as it was;
    a success appends exactly the entry of that provider, last. *)
Lemma try_provider_spec self w msgs sp mt p st r st' :
  try_provider self w msgs sp mt p st = (r, st') ->
  match r with
  | Raise e =>
      log_file st' = log_file st /\ clock_reads st' = clock_reads st /\
      exists new, trace st' = trace st ++ new /\ logged new = [] /\
                  tried new = []
  | Return resp =>
      let e := new_log_entry (clock w (clock_reads st)) (agent_name self) p
                 (input_tokens resp) (output_tokens resp)
                 (resp_cost_usd resp) success (Some (MetaMaxTokens mt)) in
      exists new,
        trace st' = trace st ++ new ++ [EvLog e] /\ logged new = [] /\
        tried new = [] /\
        log_file st' = FileLogs (_load_logs (log_file st) ++ [e]) /\
        clock_reads st' = S (clock_reads st) /\
        resp_provider resp = lower p
  end.
Proof.
  unfold try_provider. intros H.
  assert (Hnil : forall s : State, exists new : list Event,
             trace s = trace s ++ new /\ logged new = [] /\ tried new = []).
  { intros s. exists []. rewrite app_nil_r. auto. }
  destruct (providers (client_config self) !! p) as [pc|].
  2:{ inversion H; subst. auto. }
  unfold bind in H.
  destruct (CredentialsManager_get (client_config self) w p st)
    as [[key|e] s1] eqn:Hg;
    apply CredentialsManager_get_frame in Hg as (Hl1 & Ht1 & Hk1 & _).
  2:{ inversion H; subst. rewrite Hl1, Hk1, Ht1. auto. }
  unfold lift in H.
  destruct (ProviderFactory_create w p pc key) as [prov|e] eqn:Hf.
  2:{ inversion H; subst. rewrite Hl1, Hk1, Ht1. auto. }
  apply ProviderFactory_create_kind in Hf as (Hname & _).
  unfold _call_with_retries in H.
  destruct (retry_loop (client_config self) w prov msgs sp mt 3 (seq 0 3) s1)
    as [[[resp|]|e] s2] eqn:Hr;
    apply retry_loop_frame in Hr as (Hl2 & Hk2 & _ & (new & Ht2 & Hlg & Htr) & Hp).
  - rewrite UsageTracker_log_request_eq in H. inversion H; subst. simpl.
    exists new. rewrite Hl2, Hl1, Hk2, Hk1, Ht2, Ht1.
    repeat split; auto.
    + rewrite app_assoc. reflexivity.
    + rewrite <- Hname. apply Hp. reflexivity.
  - inversion H; subst. rewrite Hl2, Hl1, Hk2, Hk1, Ht2, Ht1.
    repeat split; auto. exists new. auto.
  - inversion H; subst. rewrite Hl2, Hl1, Hk2, Hk1, Ht2, Ht1.
    repeat split; auto. exists new. auto.
Qed.

Lemma for_providers_spec self w msgs sp mt to_try remaining :
  forall st r st',
  for_providers self w msgs sp mt to_try remaining st = (r, st') ->
  exists new,
    trace st' = trace st ++ new /\
    tried new `prefix_of` remaining /\
    (r = Return None -> tried new = remaining) /\
    loop_outcome self w mt to_try st st' new r.
Proof.
  induction remaining as [|p rest IH]; intros st r st' H; simpl in H.
  - inversion H; subst. exists []. rewrite app_nil_r. simpl.
    repeat split; auto.
  - destruct (try_provider self w msgs sp mt p (emit (EvTry p) st))
      as [[resp|e] s1] eqn:Ht; apply try_provider_spec in Ht; simpl in Ht.
    + destruct Ht as (new & Htr & Hlg & Htd & Hlf & Hck & Hpr).
      inversion H; subst.
      exists (EvTry p :: new ++
                [EvLog (new_log_entry (clock w (clock_reads st)) (agent_name self) p
                   (input_tokens resp) (output_tokens resp)
                   (resp_cost_usd resp) success (Some (MetaMaxTokens mt)))]).
      assert (Htried : forall x, tried (EvTry p :: new ++ [EvLog x]) = [p]).
      { intros x. change (tried (EvTry p :: new ++ [EvLog x]))
          with (p :: tried (new ++ [EvLog x])).
        rewrite tried_app, Htd. reflexivity. }
      split; [rewrite Htr, <- app_assoc; reflexivity|].
      split; [rewrite Htried; exists rest; reflexivity|].
      split; [discriminate|].
      simpl. exists (EvTry p :: new), p.
      split; [reflexivity|]. split; [exact Hlg|].
      split; [rewrite Htried; reflexivity|]. auto.
    + destruct Ht as (Hlf & Hck & new & Htr & Hlg & Htd).
      simpl in Htr.
      destruct (is_ValueError e) eqn:Hve.
      * inversion H; subst. destruct e; try discriminate.
        exists (EvTry p :: new).
        split; [rewrite Htr, <- app_assoc; reflexivity|].
        split; [change (tried (EvTry p :: new)) with (p :: tried new);
                rewrite Htd; exists rest; reflexivity|].
        split; [discriminate|]. simpl. auto.
      * destruct (String.eqb p (List.last to_try "")) eqn:Hlast.
        -- apply String.eqb_eq in Hlast.
           unfold bind, raise in H. rewrite UsageTracker_log_request_eq in H.
           inversion H; subst r st'. clear H. simpl.
           rewrite Hlf, Hck, Htr. simpl.
           exists (EvTry p :: new ++
                [EvLog (new_log_entry (clock w (clock_reads st)) (agent_name self) p
                   0 0 0 failure (Some (MetaError e)))]).
           assert (Htried : forall x, tried (EvTry p :: new ++ [EvLog x]) = [p]).
           { intros x. change (tried (EvTry p :: new ++ [EvLog x]))
               with (p :: tried (new ++ [EvLog x])).
             rewrite tried_app, Htd. reflexivity. }
           split; [rewrite <- !app_assoc; reflexivity|].
           split; [rewrite Htried; exists rest; reflexivity|].
           split; [discriminate|].
           split; [exact Hve|].
           exists (EvTry p :: new), p.
           split; [reflexivity|]. split; [exact Hlg|].
           split; [rewrite Htried; reflexivity|]. auto.
        -- apply IH in H as (new2 & Htr2 & Hpre & Hnone & Hout).
           exists (EvTry p :: new ++ new2).
           assert (Htried : tried (EvTry p :: new ++ new2) = p :: tried new2).
           { change (tried (EvTry p :: new ++ new2))
               with (p :: tried (new ++ new2)).
             rewrite tried_app, Htd. reflexivity. }
           assert (Hlogged : logged (EvTry p :: new ++ new2) = logged new2).
           { change (logged (EvTry p :: new ++ new2)) with (logged (new ++ new2)).
             rewrite logged_app, Hlg. reflexivity. }
           split; [rewrite Htr2, Htr, <- !app_assoc; reflexivity|].
           split; [rewrite Htried; apply prefix_cons; exact Hpre|].
           split; [intros Hn; rewrite Htried, (Hnone Hn); reflexivity|].
           unfold loop_outcome in *. rewrite Htried.
           destruct r as [[resp|]|e']; rewrite ?Hck, ?Hlf in Hout.
           ++ destruct Hout as (body & q & Hnew & Hb & Hl & Hf & Hp).
              exists (EvTry p :: new ++ body), q. subst new2.
              split; [simpl; rewrite app_assoc; reflexivity|].
              split; [change (logged (EvTry p :: new ++ body))
                        with (logged (new ++ body));
                      rewrite logged_app, Hlg, Hb; reflexivity|].
              split; [|auto].
              destruct (tried (body ++ [EvLog _])) eqn:E; [discriminate Hl|].
              rewrite last_cons, Hl. reflexivity.
           ++ destruct Hout as (Hlg2 & Hlf2 & Hck2).
              rewrite Hlogged. repeat split; congruence.
           ++ destruct e'; try contradiction.
              ** destruct Hout as (Hlg2 & Hlf2). rewrite Hlogged. split; congruence.
              ** destruct Hout as (Hnv & body & q & Hnew & Hb & Hl & Hq & Hf).
                 split; [exact Hnv|].
                 exists (EvTry p :: new ++ body), q. subst new2.
                 split; [simpl; rewrite app_assoc; reflexivity|].
                 split; [change (logged (EvTry p :: new ++ body))
                           with (logged (new ++ body));
                         rewrite logged_app, Hlg, Hb; reflexivity|].
                 split; [|auto].
                 destruct (tried (body ++ [EvLog _])) eqn:E; [discriminate Hl|].
                 rewrite last_cons, Hl. reflexivity.
Qed.

(* ===================================================================== *)
(** ** The loop of call *)
(* ===================================================================== *)

Lemma for_providers_app self w msgs sp mt to_try l1 l2 :
  forall st,
  for_providers self w msgs sp mt to_try (l1 ++ l2) st =
    match for_providers self w msgs sp mt to_try l1 st with
    | (Return None, s1) => for_providers self w msgs sp mt to_try l2 s1
    | other => other
    end.
Proof.
  induction l1 as [|p l1 IH]; intros st; simpl; [reflexivity|].
  destruct (try_provider self w msgs sp mt p (emit (EvTry p) st))
    as [[resp|e] s1]; [reflexivity|].
  destruct (is_ValueError e); [reflexivity|].
  destruct (String.eqb p (List.last to_try "")); [|apply IH].
  unfold bind, raise. rewrite UsageTracker_log_request_eq. reflexivity.
Qed.

(** The loop never falls off its end: its last provider either answers or
    the call raises. *)
Lemma for_providers_returns self w msgs sp mt to_try remaining :
  forall st,
  remaining <> [] ->
  List.last remaining "" = List.last to_try "" ->
  (for_providers self w msgs sp mt to_try remaining st).1 <> Return None.
Proof.
  induction remaining as [|p rest IH]; intros st Hne Hlast; [congruence|].
  simpl.
  destruct (try_provider self w msgs sp mt p (emit (EvTry p) st))
    as [[resp|e] s1]; [discriminate|].
  destruct (is_ValueError e); [discriminate|].
  destruct rest as [|q rest].
  - simpl in Hlast. rewrite <- Hlast, String.eqb_refl.
    unfold bind, raise. rewrite UsageTracker_log_request_eq. discriminate.
  - destruct (String.eqb p (List.last to_try "")).
    + unfold bind, raise. rewrite UsageTracker_log_request_eq. discriminate.
    + apply IH; [discriminate|exact Hlast].
Qed.


(* ===================================================================== *)
(** ** call and its limit checks *)
(* ===================================================================== *)

Lemma call_daily_exceeded self w msgs sp mt st :
  (daily_check self w st).1.1 = false ->
  call self w msgs sp mt st =
    (Raise (ValueError (DailyLimitExceeded (agent_name self)
                          (daily_check self w st).1.2 (daily_check self w st).2)),
     count_clock_read (emit EvCheckDaily st)).
Proof.
  unfold call, UsageTracker_check_requests_per_agent_per_day,
    bind, modify, datetime_now.
  cbn [clock_reads log_file emit count_clock_read].
  fold (daily_check self w st).
  destruct (daily_check self w st) as [[b n] l]. simpl.
  intros ->. reflexivity.
Qed.

Lemma call_cost_exceeded self w msgs sp mt st :
  (daily_check self w st).1.1 = true ->
  (cost_check self st).1.1 = false ->
  call self w msgs sp mt st =
    (Raise (ValueError (CostLimitExceeded (cost_check self st).1.2
                          (cost_check self st).2)),
     after_checks st).
Proof.
  unfold call, UsageTracker_check_requests_per_agent_per_day,
    UsageTracker_check_cost_limit, bind, modify, datetime_now.
  cbn [clock_reads log_file emit count_clock_read].
  fold (daily_check self w st). fold (cost_check self st).
  fold (after_checks st).
  destruct (daily_check self w st) as [[b n] l]. simpl.
  intros ->. simpl.
  destruct (cost_check self st) as [[b' c] l']. simpl.
  intros ->. reflexivity.
Qed.

Lemma call_within_limits self w msgs sp mt st :
  (daily_check self w st).1.1 = true ->
  (cost_check self st).1.1 = true ->
  call self w msgs sp mt st =
    for_providers self w msgs sp mt (providers_to_try self)
      (providers_to_try self) (after_checks st).
Proof.
  unfold call, UsageTracker_check_requests_per_agent_per_day,
    UsageTracker_check_cost_limit, bind, modify, datetime_now.
  cbn [clock_reads log_file emit count_clock_read].
  fold (daily_check self w st). fold (cost_check self st).
  fold (after_checks st).
  destruct (daily_check self w st) as [[b n] l]. simpl.
  intros ->. simpl.
  destruct (cost_check self st) as [[b' c] l']. simpl.
  intros ->. reflexivity.
Qed.

(* ===================================================================== *)
(** ** The limit checks *)
(* ===================================================================== *)

Lemma fold_summary_total_cost (logs : list UsageLogEntry) :
  forall s : Summary,
  (total_cost (fold_left summary_step logs s) ==
   total_cost s + success_cost logs)%Q.
Proof.
  induction logs as [|log rest IH]; intros s; simpl.
  - ring.
  - rewrite IH. unfold summary_step. destruct (status log); simpl; ring.
Qed.

Lemma total_cost_is_success_cost (f : LogFile) :
  (total_cost (get_usage_summary f) == success_cost (_load_logs f))%Q.
Proof.
  unfold get_usage_summary. rewrite fold_summary_total_cost. simpl. ring.
Qed.

Lemma providers_to_try_cons (self : APIClient) :
  exists primary,
    providers_to_try self = primary :: fallback_providers (agent_config self).
Proof. unfold providers_to_try. eexists. reflexivity. Qed.

(** A failed limit check ends the call where it stands. *)
Lemma call_stops_at_limit self w msgs sp mt st :
  let r := (call self w msgs sp mt st).1 in
  let st' := (call self w msgs sp mt st).2 in
  ((daily_check self w st).1.1 = false ->
     r = Raise (ValueError
                  (DailyLimitExceeded (agent_name self)
                     (daily_check self w st).1.2 (daily_check self w st).2)) /\
     trace st' = trace st ++ [EvCheckDaily] /\
     log_file st' = log_file st /\ requests_sent st' = requests_sent st) /\
  ((daily_check self w st).1.1 = true -> (cost_check self st).1.1 = false ->
     r = Raise (ValueError
                  (CostLimitExceeded (cost_check self st).1.2
                     (cost_check self st).2)) /\
     trace st' = trace st ++ [EvCheckDaily; EvCheckCost] /\
     log_file st' = log_file st /\ requests_sent st' = requests_sent st).
Proof.
  intros r st'. subst r st'. split.
  - intros Hd. rewrite (call_daily_exceeded _ _ _ _ _ _ Hd). simpl. auto.
  - intros Hd Hc. rewrite (call_cost_exceeded _ _ _ _ _ _ Hd Hc). simpl.
    rewrite <- app_assoc. auto.
Qed.



(* ===================================================================== *)
(** ** The cost check in binary64 *)
(* ===================================================================== *)

(** [binary64] on a few numerals: 0.1 and 38.47 are the floats next to
    them; [2 ^ 53 + 1] and [2 ^ 53 + 3], halfway between two floats, go
    to the even one; a number below half the least float is zero and one
    beyond the greatest is an infinity. *)
Lemma binary64_examples :
  Prim2SF (binary64 (1 # 10)) = S754_finite false 7205759403792794 (-56) /\
  Prim2SF (binary64 (3847 # 100)) =
    S754_finite false 5414171177029468 (-47) /\
  Prim2SF (binary64 (- (1 # 3))) = S754_finite true 6004799503160661 (-54) /\
  Prim2SF (binary64 (inject_Z (2 ^ 53 + 1))) =
    S754_finite false 4503599627370496 1 /\
  Prim2SF (binary64 (inject_Z (2 ^ 53 + 3))) =
    S754_finite false 4503599627370498 1 /\
  Prim2SF (binary64 50) = S754_finite false 7036874417766400 (-47) /\
  Prim2SF (binary64 (1 # 2 ^ 1076)) = S754_zero false /\
  Prim2SF (binary64 (inject_Z (2 ^ 1024))) = S754_infinity false.
Proof. vm_compute. repeat split. Qed.

Lemma digits2_pos_size (m : positive) : digits2_pos m = Pos.size m.
Proof. induction m; simpl; congruence. Qed.

Lemma bounded_mantissa (m : positive) (e : Z) :
  bounded prec emax m e = true ->
  (Z.pos m < 2 ^ 53)%Z /\ (-1074 <= e)%Z /\
  (-1074 < e -> 2 ^ 52 <= Z.pos m)%Z.
Proof.
  unfold bounded, canonical_mantissa, fexp, SpecFloat.emin, prec, emax.
  intros H. apply andb_prop in H as [H _]. apply Z.eqb_eq in H.
  rewrite digits2_pos_size in H.
  pose proof (Pos.size_gt m) as Hgt. pose proof (Pos.size_le m) as Hle.
  apply Pos2Z.pos_lt_pos in Hgt. apply Pos2Z.pos_le_pos in Hle.
  rewrite Pos2Z.inj_pow in Hgt, Hle.
  change (Z.pos m~0) with (2 * Z.pos m)%Z in Hle.
  set (d := Z.pos (Pos.size m)) in *.
  assert (Hd : (0 < d)%Z) by (unfold d; lia).
  split; [|split].
  - assert (d <= 53)%Z by lia.
    assert (2 ^ d <= 2 ^ 53)%Z by (apply Z.pow_le_mono_r; lia). lia.
  - lia.
  - intros He. assert (d = 53)%Z by lia.
    replace d with 53%Z in Hle by lia.
    change (2 ^ 53)%Z with (2 * 2 ^ 52)%Z in Hle. lia.
Qed.

Lemma Qpower_2_pos (e : Z) : (0 < Qpower 2 e)%Q.
Proof. apply Qpower_0_lt. reflexivity. Qed.

(** Of two canonical positive floats, the one with the smaller exponent
    is the smaller. *)
Lemma smaller_exponent (m1 m2 : positive) (e1 e2 : Z) :
  bounded prec emax m1 e1 = true -> bounded prec emax m2 e2 = true ->
  (e1 < e2)%Z ->
  (inject_Z (Z.pos m1) * Qpower 2 e1 < inject_Z (Z.pos m2) * Qpower 2 e2)%Q.
Proof.
  intros H1 H2 He.
  apply bounded_mantissa in H1 as (Hm1 & He1 & _).
  apply bounded_mantissa in H2 as (_ & _ & Hm2).
  specialize (Hm2 ltac:(lia)).
  replace e2 with (e1 + (e2 - e1))%Z by lia.
  rewrite Qpower_plus by discriminate.
  rewrite <- (Zpower_Qpower 2 (e2 - e1)) by lia.
  rewrite (Qmult_comm (2 ^ e1)), Qmult_assoc.
  apply Qmult_lt_r; [apply Qpower_2_pos|].
  rewrite <- inject_Z_mult, <- Zlt_Qlt.
  assert (2 ^ 1 <= 2 ^ (e2 - e1))%Z by (apply Z.pow_le_mono_r; lia).
  change (2 ^ 53)%Z with (2 ^ 52 * 2 ^ 1)%Z in Hm1. nia.
Qed.

Lemma same_exponent (m1 m2 : positive) (e : Z) :
  (inject_Z (Z.pos m1) * Qpower 2 e < inject_Z (Z.pos m2) * Qpower 2 e)%Q <->
  (m1 < m2)%positive.
Proof.
  split; intros H.
  - apply Qmult_lt_r in H; [|apply Qpower_2_pos].
    rewrite <- Zlt_Qlt in H. lia.
  - apply Qmult_lt_r; [apply Qpower_2_pos|].
    rewrite <- Zlt_Qlt. lia.
Qed.

(** On canonical positive floats the order of [SFcompare] is the order of
    the values. *)
Lemma compare_positive (m1 m2 : positive) (e1 e2 : Z) :
  bounded prec emax m1 e1 = true -> bounded prec emax m2 e2 = true ->
  match (e1 ?= e2)%Z with
  | Eq => Pos.compare_cont Eq m1 m2
  | Lt => Lt
  | Gt => Gt
  end = Lt <->
  (inject_Z (Z.pos m1) * Qpower 2 e1 < inject_Z (Z.pos m2) * Qpower 2 e2)%Q.
Proof.
  intros H1 H2. destruct (Z.compare_spec e1 e2) as [->|He|He].
  - rewrite same_exponent. fold (Pos.compare m1 m2).
    rewrite Pos.compare_lt_iff. reflexivity.
  - split; [intros _|reflexivity]. apply smaller_exponent; auto.
  - split; [discriminate|]. intros H. exfalso.
    apply (Qlt_irrefl (inject_Z (Z.pos m1) * 2 ^ e1)).
    eapply Qlt_trans; [exact H|]. apply smaller_exponent; auto.
Qed.

Lemma neg_value (m : positive) (e : Z) :
  (inject_Z (Z.neg m) * Qpower 2 e == - (inject_Z (Z.pos m) * Qpower 2 e))%Q.
Proof.
  change (Z.neg m) with (- Z.pos m)%Z. rewrite inject_Z_opp. ring.
Qed.

Lemma pos_value_pos (m : positive) (e : Z) :
  (0 < inject_Z (Z.pos m) * Qpower 2 e)%Q.
Proof.
  apply Qmult_lt_0_compat; [|apply Qpower_2_pos].
  change 0%Q with (inject_Z 0). rewrite <- Zlt_Qlt. lia.
Qed.

(** [<] on floats that are finite is [<] on their values. *)
Lemma ltb_float_value (x y : float) (vx vy : Q) :
  float_value x = Some vx -> float_value y = Some vy ->
  (PrimFloat.ltb x y = true <-> (vx < vy)%Q).
Proof.
  unfold float_value. rewrite ltb_spec.
  pose proof (Prim2SF_valid x) as Hx. pose proof (Prim2SF_valid y) as Hy.
  destruct (Prim2SF x) as [sx|sx| |sx mx ex]; try discriminate;
    destruct (Prim2SF y) as [sy|sy| |sy my ey]; try discriminate;
    intros [= <-] [= <-]; unfold SFltb, SFcompare; simpl in Hx, Hy.
  - split; [discriminate|]. intros H. exfalso. exact (Qlt_irrefl _ H).
  - pose proof (pos_value_pos my ey) as Hp.
    destruct sy.
    + split; [discriminate|]. intros H. exfalso. rewrite neg_value in H.
      apply (Qlt_irrefl 0). eapply Qlt_trans; [exact H|].
      rewrite <- (Qopp_involutive 0). apply Qopp_lt_compat. exact Hp.
    + split; [intros _; exact Hp|reflexivity].
  - pose proof (pos_value_pos mx ex) as Hp.
    destruct sx.
    + split; [intros _|reflexivity]. rewrite neg_value.
      rewrite <- (Qopp_involutive 0). apply Qopp_lt_compat. exact Hp.
    + split; [discriminate|]. intros H. exfalso.
      apply (Qlt_irrefl 0). eapply Qlt_trans; [exact Hp|exact H].
  - pose proof (pos_value_pos mx ex) as Hpx.
    pose proof (pos_value_pos my ey) as Hpy.
    destruct sx, sy.
    + rewrite !neg_value.
      pose proof (compare_positive my mx ey ex Hy Hx) as Hc.
      assert (Hopp : forall a b : Q, (- a < - b)%Q <-> (b < a)%Q).
      { intros a b. split; intros H.
        - apply Qopp_lt_compat in H. rewrite !Qopp_involutive in H. exact H.
        - apply Qopp_lt_compat. exact H. }
      rewrite Hopp, <- Hc.
      destruct (Z.compare_spec ex ey) as [->|He|He].
      * rewrite Z.compare_refl. fold (Pos.compare mx my).
        fold (Pos.compare my mx). rewrite (Pos.compare_antisym my mx).
        destruct (my ?= mx)%positive; simpl; split; congruence.
      * apply Z.compare_gt_iff in He. rewrite He. split; discriminate.
      * apply Z.compare_lt_iff in He. rewrite He. split; reflexivity.
    + split; [intros _|reflexivity]. rewrite neg_value.
      eapply Qlt_trans; [|exact Hpy].
      rewrite <- (Qopp_involutive 0). apply Qopp_lt_compat. exact Hpx.
    + split; [discriminate|]. intros H. exfalso. rewrite neg_value in H.
      apply (Qlt_irrefl 0). eapply Qlt_trans; [exact Hpx|].
      eapply Qlt_trans; [exact H|].
      rewrite <- (Qopp_involutive 0). apply Qopp_lt_compat. exact Hpy.
    + pose proof (compare_positive mx my ex ey Hx Hy) as Hc.
      destruct (ex ?= ey)%Z; try destruct (Pos.compare_cont Eq mx my);
        (split; [intros H; try discriminate H; apply Hc; reflexivity
                | intros H; apply Hc in H; try discriminate H; reflexivity]).
Qed.

Lemma ltb_irrefl (x : float) : PrimFloat.ltb x x = false.
Proof.
  rewrite ltb_spec. unfold SFltb, SFcompare.
  destruct (Prim2SF x) as [s|s| |s m e]; try reflexivity.
  - destruct s; reflexivity.
  - rewrite Z.compare_refl. fold (Pos.compare m m).
    rewrite Pos.compare_refl. destruct s; reflexivity.
Qed.

Lemma total_cost64_fold (logs : list UsageLogEntry) :
  forall total : float,
  fold_left
    (fun total log =>
       match status log with
       | success => PrimFloat.add total (binary64 (cost_usd log))
       | failure => total
       end)
    logs total =
  fold_left PrimFloat.add
    (map (fun log => binary64 (cost_usd log)) (List.filter is_success logs))
    total.
Proof.
  induction logs as [|log logs IH]; intros total; [reflexivity|].
  simpl. unfold is_success at 1. destruct (status log); simpl; apply IH.
Qed.

Lemma call64_daily_exceeded self w msgs sp mt st :
  (daily_check self w st).1.1 = false ->
  call64 self w msgs sp mt st =
    (Raise (ValueError (DailyLimitExceeded (agent_name self)
                          (daily_check self w st).1.2 (daily_check self w st).2)),
     count_clock_read (emit EvCheckDaily st)).
Proof.
  unfold call64, UsageTracker_check_requests_per_agent_per_day,
    bind, modify, datetime_now.
  cbn [clock_reads log_file emit count_clock_read].
  fold (daily_check self w st).
  destruct (daily_check self w st) as [[b n] l]. simpl.
  intros ->. reflexivity.
Qed.

Lemma call64_cost_exceeded self w msgs sp mt st :
  (daily_check self w st).1.1 = true ->
  (cost_check64 self st).1.1 = false ->
  call64 self w msgs sp mt st =
    (Raise (ValueError (CostLimitExceeded (shown (cost_check64 self st).1.2)
                          (shown (cost_check64 self st).2))),
     after_checks st).
Proof.
  unfold call64, UsageTracker_check_requests_per_agent_per_day,
    UsageTracker_check_cost_limit64, bind, modify, datetime_now.
  cbn [clock_reads log_file emit count_clock_read].
  fold (daily_check self w st). fold (cost_check64 self st).
  fold (after_checks st).
  destruct (daily_check self w st) as [[b n] l]. simpl.
  intros ->. simpl.
  destruct (cost_check64 self st) as [[b' c] l']. simpl.
  intros ->. reflexivity.
Qed.

Lemma call64_within_limits self w msgs sp mt st :
  (daily_check self w st).1.1 = true ->
  (cost_check64 self st).1.1 = true ->
  call64 self w msgs sp mt st =
    for_providers self w msgs sp mt (providers_to_try self)
      (providers_to_try self) (after_checks st).
Proof.
  unfold call64, UsageTracker_check_requests_per_agent_per_day,
    UsageTracker_check_cost_limit64, bind, modify, datetime_now.
  cbn [clock_reads log_file emit count_clock_read].
  fold (daily_check self w st). fold (cost_check64 self st).
  fold (after_checks st).
  destruct (daily_check self w st) as [[b n] l]. simpl.
  intros ->. simpl.
  destruct (cost_check64 self st) as [[b' c] l']. simpl.
  intros ->. reflexivity.
Qed.

(** Where the check on floats and the check on exact sums agree in
    letting the call through, or the daily check stops it, [call64] is
    [call]. *)
Lemma call64_is_call self w msgs sp mt st :
  (daily_check self w st).1.1 = false \/
  ((cost_check64 self st).1.1 = true /\ (cost_check self st).1.1 = true) ->
  call64 self w msgs sp mt st = call self w msgs sp mt st.
Proof.
  destruct ((daily_check self w st).1.1) eqn:Hd.
  - intros [H|[H64 H]]; [discriminate H|].
    rewrite (call64_within_limits _ _ _ _ _ _ Hd H64).
    rewrite (call_within_limits _ _ _ _ _ _ Hd H). reflexivity.
  - intros _. rewrite (call64_daily_exceeded _ _ _ _ _ _ Hd).
    rewrite (call_daily_exceeded _ _ _ _ _ _ Hd). reflexivity.
Qed.

(** C6 (as amended). On a log file that loads, [check_cost_limit]
    reports the configured [hard_limit_dollars] (100 when none is
    configured) and, as the current cost, the aggregate that Python
    computes: the sum of the
    costs of the [success] entries taken from [0.0] in the order of the
    log, rounded to binary64 at every addition. [within_limit] is true
    exactly when that aggregate is strictly below the limit; when the
    two are equal it is false. When it is false the next call is blocked
    before any network attempt: it raises a [LimitExceeded] error, sends
    no request, tries no provider and leaves the log as it was. *)
Theorem check_cost_limit_strict (cfg : AgencyConfig) (f : LogFile) :
  let limit := binary64 (default 100%Q (hard_limit_dollars cfg)) in
  let costs :=
    map (fun log => binary64 (cost_usd log))
      (List.filter is_success (_load_logs f)) in
  let aggregate := fold_left PrimFloat.add costs PrimFloat.zero in
  let within_limit := (check_cost_limit64 cfg f).1.1 in
  check_cost_limit_file cfg (track_file f) = Reads (check_cost_limit64 cfg f) /\
  (check_cost_limit64 cfg f).2 = limit /\
  (check_cost_limit64 cfg f).1.2 = aggregate /\
  within_limit = PrimFloat.ltb aggregate limit /\
  (forall a l : Q,
     float_value aggregate = Some a -> float_value limit = Some l ->
     (within_limit = true <-> (a < l)%Q) /\
     ((a == l)%Q -> within_limit = false)) /\
  (aggregate = limit -> within_limit = false) /\
  (within_limit = false ->
   forall (self : APIClient) (w : World) (msgs : list Message)
          (sp : option string) (mt : option Z) (st : State),
     client_config self = cfg -> log_file st = f ->
     exists m,
       (call64 self w msgs sp mt st).1 = Raise (ValueError m) /\
       kind_of_ValueError m = LimitExceeded /\
       requests_sent (call64 self w msgs sp mt st).2 = requests_sent st /\
       tried (trace (call64 self w msgs sp mt st).2) = tried (trace st) /\
       calls_made (trace (call64 self w msgs sp mt st).2) =
         calls_made (trace st) /\
       log_file (call64 self w msgs sp mt st).2 = log_file st).
Proof.
  intros limit costs aggregate within_limit.
  assert (Hagg : (check_cost_limit64 cfg f).1.2 = aggregate).
  { unfold check_cost_limit64, total_cost64. cbn [fst snd].
    apply total_cost64_fold. }
  assert (Hw : within_limit = PrimFloat.ltb aggregate limit).
  { unfold within_limit. rewrite <- Hagg. reflexivity. }
  split; [destruct f; reflexivity|].
  split; [reflexivity|]. split; [exact Hagg|]. split; [exact Hw|].
  split; [|split].
  - intros a l Ha Hl.
    pose proof (ltb_float_value aggregate limit a l Ha Hl) as Hiff.
    rewrite <- Hw in Hiff. split; [exact Hiff|].
    intros Heq. destruct within_limit; [|reflexivity].
    exfalso. apply (Qlt_irrefl l). rewrite <- Heq at 1. apply Hiff.
    reflexivity.
  - intros Heq. rewrite Hw, Heq. apply ltb_irrefl.
  - intros Hfalse self w msgs sp mt st Hcfg Hf.
    assert (Hc : (cost_check64 self st).1.1 = false).
    { unfold cost_check64. rewrite Hcfg, Hf. exact Hfalse. }
    destruct ((daily_check self w st).1.1) eqn:Hd.
    + rewrite (call64_cost_exceeded _ _ _ _ _ _ Hd Hc).
      eexists. split; [reflexivity|]. split; [reflexivity|]. simpl.
      unfold tried, calls_made. rewrite !omap_app. simpl.
      rewrite !app_nil_r. auto.
    + rewrite (call64_daily_exceeded _ _ _ _ _ _ Hd).
      eexists. split; [reflexivity|]. split; [reflexivity|]. simpl.
      unfold tried, calls_made. rewrite !omap_app. simpl.
      rewrite !app_nil_r. auto.
Qed.

Lemma check_cost_limit_strict_witness :
  (check_cost_limit64 sample_config spent_out).1.1 = false /\
  exists m,
    (call64 sample_client sample_world [] None None (fresh_state spent_out)).1 =
      Raise (ValueError m) /\
    requests_sent
      (call64 sample_client sample_world [] None None (fresh_state spent_out)).2
    = 0%nat.
Proof.
  destruct (check_cost_limit_strict sample_config spent_out)
    as (_ & _ & _ & _ & _ & Heq & Hblock).
  assert (Hw : (check_cost_limit64 sample_config spent_out).1.1 = false).
  { apply Heq. vm_compute. reflexivity. }
  split; [exact Hw|].
  destruct (Hblock Hw sample_client sample_world [] None None
              (fresh_state spent_out) eq_refl eq_refl)
    as (m & Hr & _ & Hq & _).
  exists m. split; [exact Hr|exact Hq].
Defined.

(** 38.47 + 3.91 + 7.62 dollars against a limit of 50: the costs add up
    to the limit exactly, the floats to 49.99999999999999, and the call
    goes through. *)
Lemma rounded_sum_stays_within_limit :
  (success_cost (_load_logs at_the_limit) == 50)%Q /\
  hard_limit_dollars sample_config = Some 50%Q /\
  (check_cost_limit64 sample_config at_the_limit).1.1 = true /\
  (exists below : Q,
     float_value (check_cost_limit64 sample_config at_the_limit).1.2 =
       Some below /\ (below < 50)%Q) /\
  exists resp,
    (call64 sample_client sample_world [] None None
       (fresh_state at_the_limit)).1 = Return (Some resp).
Proof.
  split; [reflexivity|]. split; [reflexivity|].
  split; [vm_compute; reflexivity|].
  split.
  - eexists. split; [vm_compute; reflexivity|]. reflexivity.
  - eexists. vm_compute. reflexivity.
Qed.

(* ===================================================================== *)
(** ** A log file that cannot be loaded *)
(* ===================================================================== *)

(** On a file that [_load_logs] reads without raising, the methods of the
    tracker are those on a [LogFile]. *)
Lemma track_file_reads (f : LogFile) (cfg : AgencyConfig) (today : Z)
    (name provider : string) (now : DateTime) (tin tout : Z) (c : Q)
    (s : Status) (md : option Metadata) :
  _load_logs_file (track_file f) = Reads (_load_logs f) /\
  get_usage_summary_file (track_file f) = Reads (get_usage_summary f) /\
  check_cost_limit_file cfg (track_file f) = Reads (check_cost_limit64 cfg f) /\
  check_requests_per_agent_per_day_file cfg today (track_file f) name =
    Reads (check_requests_per_agent_per_day cfg today f name) /\
  log_request_file now name provider tin tout c s md (track_file f) =
    Reads (log_request now name provider tin tout c s md f).
Proof. destruct f; repeat split; reflexivity. Qed.




(* ===================================================================== *)
(** ** Every call, by its result *)
(* ===================================================================== *)

(** A call either stops at a limit check, or runs the loop over
    [providers_to_try] from the state after the checks; the loop does not
    fall off its end. *)
Lemma call_outcome self w msgs sp mt st :
  let r := (call self w msgs sp mt st).1 in
  let st' := (call self w msgs sp mt st).2 in
  (exists m, r = Raise (ValueError m) /\
     kind_of_ValueError m = LimitExceeded /\
     log_file st' = log_file st /\
     (trace st' = trace st ++ [EvCheckDaily] \/
      trace st' = trace st ++ [EvCheckDaily; EvCheckCost])) \/
  ((daily_check self w st).1.1 = true /\ (cost_check self st).1.1 = true /\
   r <> Return None /\
   exists new,
     trace st' = trace st ++ EvCheckDaily :: EvCheckCost :: new /\
     tried new `prefix_of` providers_to_try self /\
     loop_outcome self w mt (providers_to_try self) (after_checks st) st'
       new r).
Proof.
  intros r st'. subst r st'.
  destruct (call_stops_at_limit self w msgs sp mt st)
    as (Hdaily & Hcost).
  destruct ((daily_check self w st).1.1) eqn:Hd.
  2:{ left. destruct (Hdaily eq_refl) as (Hr & Ht & Hl & _).
      eexists. split; [exact Hr|]. split; [reflexivity|]. auto. }
  destruct ((cost_check self st).1.1) eqn:Hc.
  2:{ left. destruct (Hcost eq_refl eq_refl) as (Hr & Ht & Hl & _).
      eexists. split; [exact Hr|]. split; [reflexivity|]. auto. }
  right. split; [reflexivity|]. split; [reflexivity|].
  rewrite (call_within_limits _ _ _ _ _ _ Hd Hc).
  split.
  - apply for_providers_returns; [|reflexivity].
    destruct (providers_to_try_cons self) as [p ->]. discriminate.
  - destruct (for_providers self w msgs sp mt (providers_to_try self)
                (providers_to_try self) (after_checks st)) as [r st'] eqn:Hf.
    apply for_providers_spec in Hf as (new & Ht & Hpre & _ & Hout).
    exists new. simpl. split; [|auto].
    rewrite Ht. simpl. rewrite <- !app_assoc. reflexivity.
Qed.

(* ===================================================================== *)
(** ** The usage log across a call *)
(* ===================================================================== *)

(** C2 (as amended). A call appends at most one entry to the usage log,
    however many providers it tried and however many attempts each took:
    exactly one [success] entry, for the provider that answered, when it
    returns a response; exactly one [failure] entry, for the last provider
    of the list, when it raises [AllProvidersFailed]; none when it raises
    a [ValueError] (a limit, a configuration or a credential error).
    Providers abandoned on the way get no entry. The entries already in
    the log are kept as they are, in order, before the new one. *)
Theorem call_logs_at_most_once (self : APIClient) (w : World)
    (msgs : list Message) (sp : option string) (mt : option Z) (st : State) :
  let r := (call self w msgs sp mt st).1 in
  let st' := (call self w msgs sp mt st).2 in
  exists new,
    trace st' = trace st ++ new /\
    _load_logs (log_file st') = _load_logs (log_file st) ++ logged new /\
    (logged new = [] -> log_file st' = log_file st) /\
    (length (logged new) <= 1)%nat /\
    match r with
    | Return (Some resp) =>
        exists e, logged new = [e] /\ status e = success /\
                  last (tried new) = Some (entry_provider e)
    | Raise (AllProvidersFailed _) =>
        exists e, logged new = [e] /\ status e = failure /\
                  last (tried new) = Some (entry_provider e) /\
                  entry_provider e = List.last (providers_to_try self) ""
    | Raise (ValueError _) => logged new = []
    | _ => False
    end.
Proof.
  intros r st'.
  destruct (call_outcome self w msgs sp mt st)
    as [(m & Hr & _ & Hl & Ht)|(_ & _ & Hnn & new & Ht & _ & Hout)];
    fold r in Hr || fold r in Hnn, Hout; fold st' in Hl, Ht || fold st' in Ht, Hout.
  - rewrite Hr.
    destruct Ht as [Ht|Ht]; eexists; (split; [exact Ht|]);
      rewrite Hl, app_nil_r; repeat split; auto.
  - exists (EvCheckDaily :: EvCheckCost :: new).
    change (logged (EvCheckDaily :: EvCheckCost :: new)) with (logged new).
    change (tried (EvCheckDaily :: EvCheckCost :: new)) with (tried new).
    split; [exact Ht|].
    unfold loop_outcome in Hout.
    change (log_file (after_checks st)) with (log_file st) in Hout.
    destruct r as [[resp|]|e].
    + destruct Hout as (body & p & Hnew & Hb & Hlast & Hf & _).
      assert (Hlg : logged new = logged body ++ logged [EvLog
                (new_log_entry (clock w (clock_reads (after_checks st)))
                   (agent_name self) p (input_tokens resp)
                   (output_tokens resp) (resp_cost_usd resp) success
                   (Some (MetaMaxTokens mt)))]).
      { rewrite Hnew at 1. apply logged_app. }
      rewrite Hb in Hlg. rewrite Hlg, Hf. simpl.
      split; [reflexivity|]. split; [discriminate|]. split; [cbn; lia|].
      eexists. split; [reflexivity|]. split; [reflexivity|].
      exact Hlast.
    + congruence.
    + destruct e; try contradiction.
      * destruct Hout as (Hlg & Hf). rewrite Hlg, Hf, app_nil_r. simpl.
        repeat split; auto.
      * destruct Hout as (_ & body & p & Hnew & Hb & Hlast & Hp & Hf).
        assert (Hlg : logged new = logged body ++ logged [EvLog
                  (new_log_entry (clock w (clock_reads (after_checks st)))
                     (agent_name self) p 0 0 0 failure
                     (Some (MetaError e)))]).
        { rewrite Hnew at 1. apply logged_app. }
        rewrite Hb in Hlg. rewrite Hlg, Hf. simpl.
        split; [reflexivity|]. split; [discriminate|]. split; [cbn; lia|].
        eexists. split; [reflexivity|]. split; [reflexivity|].
        split; [exact Hlast|exact Hp].
Qed.

Lemma call_logs_at_most_once_witness :
  (length (_load_logs
             (log_file (call sample_client (failing_first 3) [] None None
                          (fresh_state FileMissing)).2)) <= 1)%nat.
Proof.
  destruct (call_logs_at_most_once sample_client (failing_first 3) [] None
              None (fresh_state FileMissing))
    as (new & _ & Hload & _ & Hlen & _).
  rewrite Hload. exact Hlen.
Defined.

(** Claude fails its three attempts and ChatGPT answers: two providers
    were tried and the log holds one entry. *)
Lemma abandoned_provider_is_not_logged :
  tried (trace (call sample_client (failing_first 3) [] None None
                  (fresh_state (FileLogs []))).2) = ["claude"; "chatgpt"] /\
  length (_load_logs
            (log_file (call sample_client (failing_first 3) [] None None
                         (fresh_state (FileLogs []))).2)) = 1%nat /\
  length (calls_made
            (trace (call sample_client (failing_first 3) [] None None
                      (fresh_state (FileLogs []))).2)) = 4%nat.
Proof. vm_compute. auto. Qed.

(* ===================================================================== *)
(** ** The order of providers and the first success *)
(* ===================================================================== *)

(** The [try] block of a provider that resolves and whose retried call
    answers: the [success] entry is written and the answer returned. *)
Lemma try_provider_returns self w msgs sp mt p pc key prov resp st s2 s3 :
  providers (client_config self) !! p = Some pc ->
  CredentialsManager_get (client_config self) w p st = (Return key, s2) ->
  ProviderFactory_create w p pc key = Return prov ->
  _call_with_retries self w prov msgs sp mt 3 s2 = (Return (Some resp), s3) ->
  try_provider self w msgs sp mt p st =
    (Return resp,
     emit (EvLog (new_log_entry (clock w (clock_reads s3)) (agent_name self) p
                    (input_tokens resp) (output_tokens resp)
                    (resp_cost_usd resp) success (Some (MetaMaxTokens mt))))
       (set_log_file
          (FileLogs (_load_logs (log_file s3) ++
             [new_log_entry (clock w (clock_reads s3)) (agent_name self) p
                (input_tokens resp) (output_tokens resp)
                (resp_cost_usd resp) success (Some (MetaMaxTokens mt))]))
          (count_clock_read s3))).
Proof.
  intros Hpc Hg Hf Hr. unfold try_provider. rewrite Hpc.
  unfold bind. rewrite Hg. unfold lift. rewrite Hf, Hr.
  rewrite UsageTracker_log_request_eq. reflexivity.
Qed.

(** C5 (as amended). The providers are tried in the order
    [[primary] + fallback_providers], where [primary] is the override given
    at construction when present (and not empty), else the agent's
    configured provider ("claude" when none is configured): the providers
    tried by a call are an initial segment of that list, in order. When
    the call returns a response, the provider that answered is the last
    one tried; the [success] entry recording that provider, the tokens of
    the response and its cost (rounded to four decimals) is appended to
    the log and is the last effect of the call; and the [provider] field
    of the response is that provider's name in lower case, which is the
    name itself when the name is written in lower case.

    The first success is returned at once. When both limit checks have
    passed, the providers before [p] in the list have failed over, [p]
    resolves (its configuration, its credential, its provider object) and
    its call with retries answers [resp], then the call returns [resp],
    its final state is the state in which [p] answered plus the one
    [success] entry, and the providers tried are those before [p] and
    [p]: no provider after [p] is tried and no further request is sent.
    Within the retries, an invocation of the provider that answers ends
    them with that answer. *)
Theorem call_tries_in_order (self : APIClient) (w : World)
    (msgs : list Message) (sp : option string) (mt : option Z) (st : State) :
  let primary :=
    match truthy (preferred_provider self) with
    | Some p => p
    | None => default "claude" (agent_provider (agent_config self))
    end in
  let r := (call self w msgs sp mt st).1 in
  let st' := (call self w msgs sp mt st).2 in
  providers_to_try self = primary :: fallback_providers (agent_config self) /\
  (exists new,
    trace st' = trace st ++ new /\
    tried new `prefix_of` providers_to_try self /\
    forall resp, r = Return (Some resp) ->
      exists body p,
        let e := new_log_entry (clock w (S (clock_reads st)))
                   (agent_name self) p (input_tokens resp)
                   (output_tokens resp) (resp_cost_usd resp) success
                   (Some (MetaMaxTokens mt)) in
        new = body ++ [EvLog e] /\ logged body = [] /\
        last (tried new) = Some p /\
        log_file st' = FileLogs (_load_logs (log_file st) ++ [e]) /\
        (cost_usd e == py_round (resp_cost_usd resp) 4)%Q /\
        resp_provider resp = lower p /\
        (lower p = p -> resp_provider resp = p)) /\
  (forall (pre : list string) (p : string) (post : list string)
          (pc : ProviderConfig) (key : string) (prov : Provider)
          (resp : APIResponse) (s1 s2 s3 : State),
     (daily_check self w st).1.1 = true ->
     (cost_check self st).1.1 = true ->
     providers_to_try self = pre ++ p :: post ->
     for_providers self w msgs sp mt (providers_to_try self) pre
       (after_checks st) = (Return None, s1) ->
     providers (client_config self) !! p = Some pc ->
     CredentialsManager_get (client_config self) w p (emit (EvTry p) s1) =
       (Return key, s2) ->
     ProviderFactory_create w p pc key = Return prov ->
     _call_with_retries self w prov msgs sp mt 3 s2 =
       (Return (Some resp), s3) ->
     let e := new_log_entry (clock w (S (clock_reads st)))
                (agent_name self) p (input_tokens resp)
                (output_tokens resp) (resp_cost_usd resp) success
                (Some (MetaMaxTokens mt)) in
     r = Return (Some resp) /\
     st' = emit (EvLog e)
             (set_log_file (FileLogs (_load_logs (log_file st) ++ [e]))
                (count_clock_read s3)) /\
     tried (trace st') = tried (trace st) ++ pre ++ [p] /\
     requests_sent st' = requests_sent s3) /\
  (forall (prov : Provider) (n attempt : nat) (rest : list nat)
          (resp : APIResponse) (s s0 : State),
     provider_call w prov msgs sp mt (emit (EvCall (kind prov) attempt) s) =
       (Return resp, s0) ->
     retry_loop (client_config self) w prov msgs sp mt n (attempt :: rest) s =
       (Return (Some resp), s0)).
Proof.
  intros primary r st'. split; [reflexivity|]. split; [|split].
  - destruct (call_outcome self w msgs sp mt st)
      as [(m & Hr & _ & Hl & Ht)|(_ & _ & Hnn & new & Ht & Hpre & Hout)];
      fold r in Hr || fold r in Hnn, Hout;
      fold st' in Hl, Ht || fold st' in Ht, Hout.
    + destruct Ht as [Ht|Ht]; eexists; (split; [exact Ht|]);
        (split; [apply prefix_nil|]); intros resp Hresp; congruence.
    + exists (EvCheckDaily :: EvCheckCost :: new).
      change (tried (EvCheckDaily :: EvCheckCost :: new)) with (tried new).
      split; [exact Ht|]. split; [exact Hpre|].
      intros resp Hresp. rewrite Hresp in Hout. simpl in Hout.
      destruct Hout as (body & p & Hnew & Hb & Hlast & Hf & Hp).
      exists (EvCheckDaily :: EvCheckCost :: body), p. simpl.
      split; [rewrite Hnew; reflexivity|]. split; [exact Hb|].
      split; [exact Hlast|]. split; [exact Hf|].
      split; [reflexivity|]. split; [exact Hp|]. congruence.
  - intros pre p post pc key prov resp s1 s2 s3 Hd Hc Hlist Hpre Hpc Hg Hf Hr e.
    pose proof (for_providers_spec _ _ _ _ _ _ _ _ _ _ Hpre)
      as (new1 & Htr1 & _ & Hall & Hlg1 & Hlf1 & Hck1).
    specialize (Hall eq_refl).
    pose proof (CredentialsManager_get_frame _ _ _ _ _ _ Hg)
      as (Hl2 & Ht2 & Hk2 & Hq2).
    pose proof Hr as Hr'. unfold _call_with_retries in Hr'.
    apply retry_loop_frame in Hr'
      as (Hl3 & Hk3 & _ & (new3 & Ht3 & _ & Htd3) & _).
    simpl in Hl2, Ht2, Hk2, Hq2, Hlf1, Hck1, Htr1.
    assert (Hclock : clock_reads s3 = S (clock_reads st)) by congruence.
    assert (Hlog : log_file s3 = log_file st) by congruence.
    assert (Hcall : call self w msgs sp mt st =
              (Return (Some resp),
               emit (EvLog e)
                 (set_log_file (FileLogs (_load_logs (log_file st) ++ [e]))
                    (count_clock_read s3)))).
    { rewrite (call_within_limits _ _ _ _ _ _ Hd Hc).
      rewrite Hlist at 2. rewrite for_providers_app, Hpre.
      cbn [for_providers].
      rewrite (try_provider_returns _ _ _ _ _ _ _ _ _ _ _ _ _ Hpc Hg Hf Hr).
      rewrite Hclock, Hlog. reflexivity. }
    unfold r, st'. rewrite Hcall. simpl.
    split; [reflexivity|]. split; [reflexivity|]. split; [|reflexivity].
    rewrite Ht3, Ht2. simpl. rewrite Htr1. simpl.
    rewrite !tried_app, Htd3, Hall. unfold tried. simpl.
    rewrite !app_nil_r, <- !app_assoc. reflexivity.
  - intros prov n attempt rest resp s s0 H. simpl. rewrite H. reflexivity.
Qed.

Lemma call_tries_in_order_witness :
  (exists resp,
     (call sample_client sample_world [] None None
        (fresh_state FileMissing)).1 = Return (Some resp) /\
     resp_provider resp = "claude" /\
     tried (trace (call sample_client sample_world [] None None
                     (fresh_state FileMissing)).2) = ["claude"]) /\
  (exists resp,
     (call sample_client (failing_first 3) [] None None
        (fresh_state FileMissing)).1 = Return (Some resp) /\
     resp_provider resp = "chatgpt" /\
     tried (trace (call sample_client (failing_first 3) [] None None
                     (fresh_state FileMissing)).2) = ["claude"; "chatgpt"]).
Proof.
  split.
  - destruct (call_tries_in_order sample_client sample_world [] None None
                (fresh_state FileMissing)) as (_ & _ & Hfirst & _).
    edestruct (Hfirst [] "claude" ["chatgpt"] sample_claude "sk-ant"
                 sample_provider) as (Hr & _ & Htried & _);
      [vm_compute; reflexivity..|].
    eexists. split; [exact Hr|]. split; [reflexivity|exact Htried].
  - destruct (call_tries_in_order sample_client (failing_first 3) [] None None
                (fresh_state FileMissing)) as (_ & _ & Hfirst & _).
    edestruct (Hfirst ["claude"] "chatgpt" [] sample_chatgpt "sk-oa"
                 {| kind := ChatGPTProvider; config := sample_chatgpt;
                    api_key := "sk-oa" |}) as (Hr & _ & Htried & _);
      [vm_compute; reflexivity..|].
    eexists. split; [exact Hr|]. split; [reflexivity|exact Htried].
Defined.

(** The agent names "Claude": that provider is tried and answers, the log
    entry records "Claude", and the response says "claude". *)
Lemma response_provider_is_lower_case :
  exists resp,
    (call mixed_case_client sample_world [] None None
       (fresh_state FileMissing)).1 = Return (Some resp) /\
    tried (trace (call mixed_case_client sample_world [] None None
                    (fresh_state FileMissing)).2) = ["Claude"] /\
    resp_provider resp = "claude" /\
    resp_provider resp <> "Claude".
Proof.
  eexists. split; [vm_compute; reflexivity|].
  split; [vm_compute; reflexivity|].
  split; [reflexivity|]. discriminate.
Qed.

(* ===================================================================== *)
(** ** Errors of configuration and of credentials *)
(* ===================================================================== *)

Lemma CredentialsManager_get_raises cfg w p st e st' :
  CredentialsManager_get cfg w p st = (Raise e, st') ->
  st' = st /\
  exists m, e = ValueError m /\ kind_of_ValueError m = CredentialError.
Proof.
  unfold CredentialsManager_get. intros H.
  repeat match type of H with
         | context [match ?x with _ => _ end] => destruct x
         end; inversion H; subst; split; eauto.
Qed.

Lemma CredentialsManager_get_unset cfg w p st :
  _cache st !! lower p = None ->
  (exists pc, providers cfg !! lower p = Some pc /\
     (truthy (api_key_env_var pc) = None \/
      exists env_var, truthy (api_key_env_var pc) = Some env_var /\
                      truthy (environ w !! env_var) = None)) ->
  exists e, CredentialsManager_get cfg w p st = (Raise e, st).
Proof.
  intros Hc (pc & Hpc & [Hv|(ev & Hv & He)]);
    unfold CredentialsManager_get; rewrite Hc, Hpc, Hv; [|rewrite He]; eauto.
Qed.

Lemma ProviderFactory_create_disabled w p pc key :
  enabled pc = false ->
  exists m, ProviderFactory_create w p pc key = Raise (ValueError m) /\
            kind_of_ValueError m = ConfigError.
Proof.
  intros He. unfold ProviderFactory_create.
  destruct (PROVIDERS !! lower p); [rewrite He|]; simpl; eauto.
Qed.

(** A resolution error ends the [try] block with a [ValueError], before
    any call of the provider. *)
Lemma try_provider_resolution_fails self w msgs sp mt p st :
  resolution_fails self w st p ->
  exists m st',
    try_provider self w msgs sp mt p st = (Raise (ValueError m), st') /\
    (kind_of_ValueError m = ConfigError \/
     kind_of_ValueError m = CredentialError) /\
    trace st' = trace st /\ log_file st' = log_file st /\
    requests_sent st' = requests_sent st /\
    (forall key s,
       CredentialsManager_get (client_config self) w p st = (Return key, s) ->
       kind_of_ValueError m = ConfigError) /\
    (is_Some (providers (client_config self) !! p) ->
     forall e s,
       CredentialsManager_get (client_config self) w p st = (Raise e, s) ->
       kind_of_ValueError m = CredentialError).
Proof.
  intros Hres. unfold try_provider.
  destruct (providers (client_config self) !! p) as [pc|] eqn:Hpc.
  2:{ eexists _, st. split; [reflexivity|]. split; [left; reflexivity|].
      repeat split; auto. intros [x Hx]. discriminate Hx. }
  unfold bind.
  destruct (CredentialsManager_get (client_config self) w p st)
    as [[key|e] s1] eqn:Hg.
  - pose proof (CredentialsManager_get_frame _ _ _ _ _ _ Hg)
      as (Hl & Ht & _ & Hq).
    assert (Hdis : enabled pc = false).
    { destruct Hres as [Habs|[(pc' & Hpc' & He)|[(Hc & pc' & Hpc' & Hv)|
                       (Hc & pc' & ev & Hpc' & Hv & Hev)]]].
      - congruence.
      - congruence.
      - destruct (CredentialsManager_get_unset (client_config self) w p st Hc)
          as [e He]; [eauto|congruence].
      - destruct (CredentialsManager_get_unset (client_config self) w p st Hc)
          as [e He]; [eauto 8|congruence]. }
    destruct (ProviderFactory_create_disabled w p pc key Hdis) as (m & Hm & Hk).
    unfold lift. rewrite Hm. exists m, s1.
    split; [reflexivity|]. split; [left; exact Hk|].
    repeat split; auto. intros _ e s [=].
  - apply CredentialsManager_get_raises in Hg as (-> & m & -> & Hk).
    exists m, st. split; [reflexivity|]. split; [right; exact Hk|].
    repeat split; auto. intros key s [=].
Qed.

(** C1 (as amended). Once both limit checks have passed, an error raised
    while resolving the configuration of a provider (its name absent from
    the providers map, or the provider disabled) or its credential (no
    [api_key_env_var] configured, or the variable unset or empty) aborts
    the whole call with that [ValueError], wherever the provider stands in
    the list: the providers before it were tried and abandoned, the
    failing one is the last thing the call does, so that no later provider
    is tried, nothing is retried, no request is sent for it and no usage
    log entry is written. In particular a disabled primary provider fails
    the very first attempt and no fallback is tried; the error is the
    configuration error when its credential resolves, and the credential
    error when it does not. *)
Theorem resolution_error_aborts_call (self : APIClient) (w : World)
    (msgs : list Message) (sp : option string) (mt : option Z) (st : State)
    (pre : list string) (p : string) (post : list string) (s1 : State) :
  (daily_check self w st).1.1 = true ->
  (cost_check self st).1.1 = true ->
  providers_to_try self = pre ++ p :: post ->
  for_providers self w msgs sp mt (providers_to_try self) pre
    (after_checks st) = (Return None, s1) ->
  resolution_fails self w s1 p ->
  exists m st',
    call self w msgs sp mt st = (Raise (ValueError m), st') /\
    (kind_of_ValueError m = ConfigError \/
     kind_of_ValueError m = CredentialError) /\
    trace st' = trace s1 ++ [EvTry p] /\
    requests_sent st' = requests_sent s1 /\
    log_file st' = log_file st /\
    logged (trace st') = logged (trace st) /\
    (pre = [] ->
     trace st' = trace st ++ [EvCheckDaily; EvCheckCost; EvTry p]) /\
    (forall key s,
       CredentialsManager_get (client_config self) w p (emit (EvTry p) s1) =
         (Return key, s) ->
       kind_of_ValueError m = ConfigError) /\
    (is_Some (providers (client_config self) !! p) ->
     forall e s,
       CredentialsManager_get (client_config self) w p (emit (EvTry p) s1) =
         (Raise e, s) ->
       kind_of_ValueError m = CredentialError).
Proof.
  intros Hd Hc Hlist Hpre Hres.
  destruct (try_provider_resolution_fails self w msgs sp mt p
              (emit (EvTry p) s1) Hres)
    as (m & st' & Htry & Hkind & Ht & Hl & Hq & Hcfg & Hcred).
  exists m, st'.
  pose proof (for_providers_spec _ _ _ _ _ _ _ _ _ _ Hpre)
    as (new & Htr1 & _ & _ & Hlg & Hlf & _).
  split.
  { rewrite (call_within_limits _ _ _ _ _ _ Hd Hc).
    rewrite Hlist at 2. rewrite for_providers_app, Hpre. simpl.
    rewrite Htry. reflexivity. }
  split; [exact Hkind|].
  split; [rewrite Ht; reflexivity|].
  split; [rewrite Hq; reflexivity|].
  split; [rewrite Hl; simpl; rewrite Hlf; reflexivity|].
  split.
  { rewrite Ht. simpl. rewrite Htr1. simpl.
    rewrite !logged_app, Hlg. simpl. rewrite !app_nil_r.
    reflexivity. }
  split.
  { intros ->. simpl in Hpre. injection Hpre as <-.
    rewrite Ht. simpl. rewrite <- !app_assoc. reflexivity. }
  split; [exact Hcfg|exact Hcred].
Qed.

Lemma resolution_error_aborts_call_witness :
  (call disabled_primary_client sample_world [] None None
     (fresh_state FileMissing)).1 =
    Raise (ValueError (ProviderNotEnabled "chatgpt")) /\
  trace (call disabled_primary_client sample_world [] None None
           (fresh_state FileMissing)).2 =
  [EvCheckDaily; EvCheckCost; EvTry "chatgpt"].
Proof.
  destruct (resolution_error_aborts_call disabled_primary_client sample_world
              [] None None (fresh_state FileMissing) [] "chatgpt" ["claude"]
              (after_checks (fresh_state FileMissing))
              eq_refl eq_refl eq_refl eq_refl
              (or_intror (or_introl
                 (ex_intro _ disabled_chatgpt (conj eq_refl eq_refl)))))
    as (m & st' & Hcall & _ & _ & _ & _ & _ & Htrace & _).
  assert (E : (call disabled_primary_client sample_world [] None None
                 (fresh_state FileMissing)).1 =
              Raise (ValueError (ProviderNotEnabled "chatgpt")))
    by (vm_compute; reflexivity).
  rewrite Hcall in E |- *. simpl in E |- *.
  split; [exact E|exact (Htrace eq_refl)].
Defined.

(** The primary provider is disabled and, as disabled providers usually
    are, without a key in the environment: the call fails on the
    credential, before the factory is asked. *)
Lemma disabled_primary_fails_on_credential :
  (call disabled_primary_client claude_only_world [] None None
     (fresh_state FileMissing)).1 =
    Raise (ValueError (ApiKeyNotFound "chatgpt" "OPENAI_API_KEY")) /\
  kind_of_ValueError (ApiKeyNotFound "chatgpt" "OPENAI_API_KEY") =
    CredentialError /\
  kind_of_ValueError (ApiKeyNotFound "chatgpt" "OPENAI_API_KEY") <>
    ConfigError.
Proof.
  split; [vm_compute; reflexivity|]. split; [reflexivity|discriminate].
Qed.

(* ===================================================================== *)
(** ** Retries and backoff *)
(* ===================================================================== *)




(* ===================================================================== *)
(** ** The scaffolded provider *)
(* ===================================================================== *)

(** C8 (as amended). The [call] of the not-yet-implemented Grok variant
    fails on every input with [NotImplementedError], a condition of its
    own, distinct from a transport error and from [ValueError], and sends
    nothing upstream. The retry loop treats it as any other failure: it
    invokes the call three times, sleeping b^0 and b^1 seconds in between,
    and then lets [NotImplementedError] propagate as the provider's
    failure. *)
Theorem grok_call_not_implemented (self : APIClient) (w : World)
    (prov : Provider) (msgs : list Message) (sp : option string)
    (mt : option Z) (st : State) :
  kind prov = GrokProvider ->
  let b := default 2%Q (retry_backoff_base (client_config self)) in
  provider_call w prov msgs sp mt st = (Raise NotImplementedError, st) /\
  is_ValueError NotImplementedError = false /\
  (forall msg, NotImplementedError <> UpstreamError msg) /\
  exists st',
    _call_with_retries self w prov msgs sp mt 3 st =
      (Raise NotImplementedError, st') /\
    trace st' =
      trace st ++ [EvCall GrokProvider 0; EvSleep 1; EvCall GrokProvider 1;
                   EvSleep b; EvCall GrokProvider 2] /\
    requests_sent st' = requests_sent st /\
    log_file st' = log_file st.
Proof.
  intros Hk b.
  split; [apply GrokProvider_call_raises; exact Hk|].
  split; [reflexivity|]. split; [discriminate|].
  unfold _call_with_retries.
  cbn [seq retry_loop Nat.ltb Nat.leb Nat.sub].
  rewrite (GrokProvider_call_raises _ _ _ _ _ _ Hk).
  cbn [seq retry_loop Nat.ltb Nat.leb Nat.sub].
  rewrite (GrokProvider_call_raises _ _ _ _ _ _ Hk).
  cbn [seq retry_loop Nat.ltb Nat.leb Nat.sub].
  rewrite (GrokProvider_call_raises _ _ _ _ _ _ Hk).
  eexists. split; [reflexivity|]. simpl. rewrite Hk, <- !app_assoc.
  repeat split; reflexivity.
Qed.

Lemma grok_call_not_implemented_witness :
  (_call_with_retries sample_client sample_world grok_provider [] None None 3
     (fresh_state FileMissing)).1 = Raise NotImplementedError.
Proof.
  destruct (grok_call_not_implemented sample_client sample_world grok_provider
              [] None None (fresh_state FileMissing) eq_refl)
    as (_ & _ & _ & st' & Hr & _).
  rewrite Hr. reflexivity.
Defined.

(** The retry loop on the Grok variant: three invocations and two backoff
    sleeps, of one and two seconds, are spent on a call that cannot
    succeed. *)
Lemma grok_call_is_retried :
  calls_made (trace (_call_with_retries sample_client sample_world
                       grok_provider [] None None 3
                       (fresh_state FileMissing)).2) =
    [(GrokProvider, 0%nat); (GrokProvider, 1%nat); (GrokProvider, 2%nat)] /\
  sleeps (trace (_call_with_retries sample_client sample_world
                   grok_provider [] None None 3
                   (fresh_state FileMissing)).2) = [1%Q; 2%Q] /\
  sleeps (trace (_call_with_retries sample_client sample_world
                   grok_provider [] None None 3
                   (fresh_state FileMissing)).2) <> [].
Proof.
  split; [reflexivity|]. split; [reflexivity|]. discriminate.
Qed.

(* ===================================================================== *)
(** ** Several callers of log_request *)
(* ===================================================================== *)

Lemma run_serial (entries : list UsageLogEntry) :
  forall (k : nat) (f : LogFile),
  exists f',
    run_schedule (serial_schedule k (length entries)) f
      (replicate k Done ++ map Ready entries) =
      (f', replicate (k + length entries) Done) /\
    _load_logs f' = _load_logs f ++ entries /\
    (entries = [] -> f' = f).
Proof.
  induction entries as [|e es IH]; intros k f.
  - exists f. simpl. rewrite !app_nil_r, Nat.add_0_r. auto.
  - unfold serial_schedule. simpl.
    assert (Hk : length (replicate k Done) = k) by apply length_replicate.
    assert (Hlook : forall (x : Writer) (rest : list Writer),
               (replicate k Done ++ x :: rest) !! k = Some x).
    { intros x rest. apply list_lookup_middle. symmetry. exact Hk. }
    assert (Hins : forall (x y : Writer) (rest : list Writer),
               <[k := y]> (replicate k Done ++ x :: rest) =
               replicate k Done ++ y :: rest).
    { intros x y rest. rewrite insert_app_r_alt by (rewrite Hk; lia).
      rewrite Hk, Nat.sub_diag. reflexivity. }
    rewrite Hlook. simpl. rewrite Hins, Hlook. simpl. rewrite Hins.
    destruct (IH (S k) (FileLogs (_load_logs f ++ [e]))) as (f' & Hrun & Hload & _).
    exists f'. fold (serial_schedule (S k) (length es)).
    replace (replicate k Done ++ Done :: map Ready es)
      with (replicate (S k) Done ++ map Ready es).
    2:{ change (Done :: map Ready es) with ([Done] ++ map Ready es).
        rewrite app_assoc. f_equal.
        rewrite <- replicate_S_end. reflexivity. }
    rewrite Hrun. replace (k + S (length es))%nat with (S k + length es)%nat by lia.
    split; [reflexivity|]. split; [|discriminate].
    rewrite Hload. simpl. rewrite <- app_assoc. reflexivity.
Qed.

(** C9 (as amended). When N [log_request] calls run one after the other
    against the same usage log, each completing its read, append and
    write before the next one starts, every caller finishes and the log
    afterwards holds the entries it held before followed by the N new
    ones, in order: exactly N new entries. [log_request] takes no lock, so
    this is all that holds: when the cycles of concurrent callers
    interleave, entries can be lost. *)
Theorem serial_log_requests_lose_nothing (f : LogFile)
    (entries : list UsageLogEntry) :
  let n := length entries in
  let outcome := run_schedule (serial_schedule 0 n) f (map Ready entries) in
  _load_logs outcome.1 = _load_logs f ++ entries /\
  length (_load_logs outcome.1) = (length (_load_logs f) + n)%nat /\
  outcome.2 = replicate n Done.
Proof.
  intros n outcome.
  destruct (run_serial entries 0 f) as (f' & Hrun & Hload & _).
  simpl in Hrun. subst outcome n. rewrite Hrun. simpl.
  split; [exact Hload|]. split; [|reflexivity].
  rewrite Hload, length_app. reflexivity.
Qed.

(** Two callers on an empty log, both reading before either writes: both
    finish, and the log holds one entry, the one written last. *)
Lemma interleaved_log_requests_lose_an_entry :
  run_schedule interleaved_schedule (FileLogs [])
    [Ready (sample_entry 739000 1 success);
     Ready (sample_entry 739000 2 success)] =
  (FileLogs [sample_entry 739000 2 success], [Done; Done]) /\
  length (_load_logs
            (run_schedule interleaved_schedule (FileLogs [])
               [Ready (sample_entry 739000 1 success);
                Ready (sample_entry 739000 2 success)]).1) <> 2%nat.
Proof. split; [reflexivity|]. discriminate. Qed.

(* ===================================================================== *)
(** ** More on the usage tracker *)
(* ===================================================================== *)

Lemma fold_summary_totals (logs : list UsageLogEntry) :
  forall s : Summary,
  total_calls (fold_left summary_step logs s) = total_calls s /\
  total_tokens (fold_left summary_step logs s) =
    (total_tokens s + sum_tokens (List.filter is_success logs))%Z.
Proof.
  induction logs as [|log rest IH]; intros s; simpl.
  - split; [reflexivity|lia].
  - destruct (IH (summary_step s log)) as [Hc Ht]. rewrite Hc, Ht.
    unfold summary_step, is_success. destruct (status log); simpl;
      split; try reflexivity; lia.
Qed.

Lemma success_cost_sum (logs : list UsageLogEntry) :
  (success_cost logs == sum_cost (List.filter is_success logs))%Q.
Proof.
  induction logs as [|log rest IH]; simpl; [reflexivity|].
  unfold is_success at 1. destruct (status log); simpl.
  - rewrite IH. reflexivity.
  - exact IH.
Qed.

(** X1. [get_usage_summary] counts every entry of the log in
    [total_calls], failures included, and adds up in [total_tokens] the
    token totals of the [success] entries only. *)
Theorem summary_counts_all_sums_successes (f : LogFile) :
  total_calls (get_usage_summary f) = length (_load_logs f) /\
  total_tokens (get_usage_summary f) =
    sum_tokens (List.filter is_success (_load_logs f)) /\
  (total_cost (get_usage_summary f) ==
     sum_cost (List.filter is_success (_load_logs f)))%Q.
Proof.
  unfold get_usage_summary.
  destruct (fold_summary_totals (_load_logs f)
              (empty_summary (length (_load_logs f)))) as [Hc Ht].
  split; [exact Hc|]. split; [rewrite Ht; reflexivity|].
  rewrite fold_summary_total_cost, success_cost_sum. simpl. ring.
Qed.

Lemma add_stats_lookup (k k' : string) (tok : Z) (c : Q)
    (d : gmap string Stats) :
  add_stats k' tok c d !! k =
    if decide (k' = k)
    then Some {| calls := (calls (default {| calls := 0; tokens := 0; cost := 0 |}
                                    (d !! k)) + 1)%Z;
                 tokens := (tokens (default {| calls := 0; tokens := 0; cost := 0 |}
                                      (d !! k)) + tok)%Z;
                 cost := (cost (default {| calls := 0; tokens := 0; cost := 0 |}
                                  (d !! k)) + c)%Q |}
    else d !! k.
Proof.
  unfold add_stats. rewrite lookup_insert.
  destruct (decide (k' = k)) as [->|]; reflexivity.
Qed.

(** The statistics filed under [k] after folding [logs] into a map [d0]
    with [add_stats], for either of the two groupings. *)
Lemma fold_group_stats (key : UsageLogEntry -> string)
    (proj : Summary -> gmap string Stats) (k : string) :
  (forall s log,
     proj (summary_step s log) =
       if is_success log
       then add_stats (key log) (entry_total_tokens log) (cost_usd log) (proj s)
       else proj s) ->
  forall (logs : list UsageLogEntry) (s : Summary),
    let base := default {| calls := 0; tokens := 0; cost := 0 |} (proj s !! k) in
    let g := group key k logs in
    (g = [] -> proj (fold_left summary_step logs s) !! k = proj s !! k) /\
    (g <> [] ->
     exists st, proj (fold_left summary_step logs s) !! k = Some st /\
       calls st = (calls base + Z.of_nat (length g))%Z /\
       tokens st = (tokens base + sum_tokens g)%Z /\
       (cost st == cost base + sum_cost g)%Q).
Proof.
  intros Hstep logs. induction logs as [|log rest IH]; intros s base g.
  - split; [reflexivity|]. intros Hne. exfalso. apply Hne. reflexivity.
  - specialize (IH (summary_step s log)). simpl in IH.
    destruct IH as [IHnil IHcons].
    subst g. unfold group in *. simpl.
    destruct (is_success log) eqn:Hs; simpl.
    2:{ rewrite Hstep, Hs in IHnil, IHcons. split; [exact IHnil|exact IHcons]. }
    destruct (String.eqb (key log) k) eqn:Hk.
    + apply String.eqb_eq in Hk.
      rewrite Hstep, Hs, add_stats_lookup in IHnil, IHcons.
      rewrite decide_True in IHnil, IHcons by exact Hk. simpl in IHcons.
      split; [discriminate|]. intros _.
      fold base in IHnil, IHcons.
      destruct (List.filter
                  (fun l => is_success l && String.eqb (key l) k) rest)
        as [|x xs] eqn:Hf.
      * eexists. split; [apply IHnil; reflexivity|]. simpl.
        split; [lia|]. split; [lia|]. ring.
      * destruct IHcons as (st & Hst & Hc & Ht & Hq); [discriminate|].
        exists st. split; [exact Hst|].
        split; [rewrite Hc; simpl length; lia|].
        split; [rewrite Ht; simpl; lia|].
        rewrite Hq. simpl. ring.
    + apply String.eqb_neq in Hk.
      rewrite Hstep, Hs, add_stats_lookup in IHnil, IHcons.
      rewrite decide_False in IHnil, IHcons by exact Hk.
      split; [exact IHnil|exact IHcons].
Qed.

(** X2. In the summary, the statistics of a provider are those of the
    [success] entries of that provider: their number, the sum of their
    token totals and the sum of their costs; a provider without a
    [success] entry has no statistics at all, failures creating none. The
    same holds per agent. *)
Theorem summary_groups_by_provider_and_agent (f : LogFile) (k : string) :
  let logs := _load_logs f in
  let describes (g : list UsageLogEntry) (o : option Stats) : Prop :=
    match o with
    | None => g = []
    | Some st =>
        g <> [] /\ calls st = Z.of_nat (length g) /\
        tokens st = sum_tokens g /\ (cost st == sum_cost g)%Q
    end in
  describes (group entry_provider k logs)
    (by_provider (get_usage_summary f) !! k) /\
  describes (group agent k logs) (by_agent (get_usage_summary f) !! k).
Proof.
  intros logs describes. unfold get_usage_summary. fold logs.
  assert (Hgen : forall key proj,
    (forall s log,
       proj (summary_step s log) =
         if is_success log
         then add_stats (key log) (entry_total_tokens log) (cost_usd log) (proj s)
         else proj s) ->
    proj (empty_summary (length logs)) = ∅ ->
    describes (group key k logs)
      (proj (fold_left summary_step logs (empty_summary (length logs))) !! k)).
  { intros key proj Hstep Hempty.
    destruct (fold_group_stats key proj k Hstep logs
                (empty_summary (length logs))) as [Hnil Hcons].
    rewrite Hempty, lookup_empty in Hnil, Hcons. simpl in Hcons.
    destruct (group key k logs) as [|x xs] eqn:Hg.
    - rewrite Hnil by reflexivity. reflexivity.
    - destruct Hcons as (st & -> & Hc & Ht & Hq); [discriminate|].
      subst describes. cbv beta iota.
      split; [discriminate|]. split; [exact Hc|]. split; [exact Ht|].
      rewrite Hq. simpl. ring. }
  split.
  - apply (Hgen entry_provider by_provider); [|reflexivity].
    intros s log. unfold summary_step, is_success.
    destruct (status log); reflexivity.
  - apply (Hgen agent by_agent); [|reflexivity].
    intros s log. unfold summary_step, is_success.
    destruct (status log); reflexivity.
Qed.

Lemma fold_count_requests (day : Z) (name : string)
    (logs : list UsageLogEntry) :
  forall n : Z,
  fold_left
    (fun n log =>
       if Z.eqb (date (timestamp log)) day && String.eqb (agent log) name
       then (n + 1)%Z else n)
    logs n =
  (n + Z.of_nat (length (requests_on day name logs)))%Z.
Proof.
  unfold requests_on.
  induction logs as [|log rest IH]; intros n; simpl; [lia|].
  rewrite IH.
  destruct (Z.eqb (date (timestamp log)) day && String.eqb (agent log) name);
    simpl length; lia.
Qed.

(** X3. [check_requests_per_agent_per_day] counts the entries of the log
    that carry today's date and the agent's name, whatever their status
    (a logged failure counts as a request), reports the agent's
    [requests_per_day] (100 when the agent or the limit is not
    configured), and is within the limit exactly when the count is
    strictly below it. *)
Theorem daily_check_counts_every_status (cfg : AgencyConfig) (today : Z)
    (f : LogFile) (name : string) :
  let result := check_requests_per_agent_per_day cfg today f name in
  let limit := default 100%Z (agents cfg !! name ≫= requests_per_day) in
  result.1.2 = Z.of_nat (length (requests_on today name (_load_logs f))) /\
  result.2 = limit /\
  (result.1.1 = true <->
   (Z.of_nat (length (requests_on today name (_load_logs f))) < limit)%Z) /\
  (agents cfg !! name = None -> limit = 100%Z).
Proof.
  intros result limit. subst result limit.
  unfold check_requests_per_agent_per_day. cbn [fst snd].
  rewrite fold_count_requests, Z.add_0_l.
  split; [reflexivity|]. split; [reflexivity|].
  split; [apply Z.ltb_lt|]. intros ->. reflexivity.
Qed.

Lemma daily_check_counts_every_status_witness :
  (check_requests_per_agent_per_day sample_config 739000 busy_day
     "research-agent").2 = 100%Z.
Proof.
  destruct (daily_check_counts_every_status sample_config 739000 busy_day
              "research-agent") as (_ & Hlimit & _ & Hdefault).
  rewrite Hlimit. apply Hdefault. reflexivity.
Defined.


Lemma daily_check_iff (self : APIClient) (w : World) (st : State) :
  (daily_check self w st).1.1 = true <->
  (counted_on self (date (clock w (clock_reads st))) st <
   default 100%Z (agents (client_config self) !! agent_name self
                    ≫= requests_per_day))%Z.
Proof.
  unfold daily_check, check_requests_per_agent_per_day, counted_on.
  cbn [fst snd]. rewrite fold_count_requests, Z.add_0_l. apply Z.ltb_lt.
Qed.

Lemma counted_on_append (self : APIClient) (d : Z) (st st' : State)
    (now : DateTime) (p : string) (tin tout : Z) (c : Q) (s : Status)
    (md : option Metadata) :
  date now = d ->
  log_file st' =
    FileLogs (_load_logs (log_file st) ++
                [new_log_entry now (agent_name self) p tin tout c s md]) ->
  counted_on self d st' = (counted_on self d st + 1)%Z.
Proof.
  intros Hd Hf. unfold counted_on, requests_on. rewrite Hf. cbn [_load_logs].
  rewrite List.filter_app, length_app. simpl.
  rewrite Hd, Z.eqb_refl, String.eqb_refl. simpl. lia.
Qed.

(** X5. The daily limit holds across calls. As long as the clock stays on
    one date, a call never lowers the number of requests counted for its
    agent on that date and raises it by at most one, and never beyond the
    agent's [requests_per_day] unless it was beyond already; once the
    limit is reached a call changes nothing in the log and raises the
    daily [LimitExceeded] error. *)
Theorem call_keeps_daily_limit (self : APIClient) (w : World)
    (msgs : list Message) (sp : option string) (mt : option Z) (st : State)
    (d : Z) :
  (forall n, date (clock w n) = d) ->
  let limit :=
    default 100%Z (agents (client_config self) !! agent_name self
                     ≫= requests_per_day) in
  let r := (call self w msgs sp mt st).1 in
  let st' := (call self w msgs sp mt st).2 in
  (counted_on self d st <= counted_on self d st')%Z /\
  (counted_on self d st' <= counted_on self d st + 1)%Z /\
  (counted_on self d st' <= Z.max (counted_on self d st) limit)%Z /\
  ((limit <= counted_on self d st)%Z ->
   log_file st' = log_file st /\
   r = Raise (ValueError
                (DailyLimitExceeded (agent_name self)
                   (counted_on self d st) limit))).
Proof.
  intros Hclock limit r st'.
  pose proof (daily_check_iff self w st) as Hiff. rewrite Hclock in Hiff.
  fold limit in Hiff.
  assert (Hblocked : (limit <= counted_on self d st)%Z ->
            log_file st' = log_file st /\
            r = Raise (ValueError
                         (DailyLimitExceeded (agent_name self)
                            (counted_on self d st) limit))).
  { intros Hle.
    assert (Hd : (daily_check self w st).1.1 = false).
    { destruct ((daily_check self w st).1.1); [|reflexivity].
      assert (counted_on self d st < limit)%Z by (apply Hiff; reflexivity).
      lia. }
    destruct (call_stops_at_limit self w msgs sp mt st) as [Hdaily _].
    destruct (Hdaily Hd) as (Hr & _ & Hl & _).
    split; [exact Hl|]. subst r. rewrite Hr.
    unfold daily_check, check_requests_per_agent_per_day, counted_on.
    cbn [fst snd]. rewrite fold_count_requests, Z.add_0_l, Hclock.
    reflexivity. }
  assert (Hsame : log_file st' = log_file st ->
            counted_on self d st' = counted_on self d st).
  { intros Hl. unfold counted_on. rewrite Hl. reflexivity. }
  destruct (call_outcome self w msgs sp mt st)
    as [(m & Hr & _ & Hl & _)|(Hd & _ & Hnn & new & _ & _ & Hout)];
    fold r in Hr || fold r in Hnn, Hout; fold st' in Hl || fold st' in Hout.
  - rewrite (Hsame Hl).
    split; [lia|]. split; [lia|]. split; [lia|]. exact Hblocked.
  - apply Hiff in Hd.
    assert (Hone : counted_on self d st' = counted_on self d st \/
                   counted_on self d st' = (counted_on self d st + 1)%Z).
    { unfold loop_outcome in Hout.
      change (log_file (after_checks st)) with (log_file st) in Hout.
      destruct r as [[resp|]|e].
      - destruct Hout as (body & p & _ & _ & _ & Hf & _). right.
        exact (counted_on_append self d st st' _ _ _ _ _ _ _
                 (Hclock _) Hf).
      - congruence.
      - destruct e; try contradiction.
        + destruct Hout as (_ & Hl). left. exact (Hsame Hl).
        + destruct Hout as (_ & body & p & _ & _ & _ & _ & Hf). right.
          exact (counted_on_append self d st st' _ _ _ _ _ _ _
                   (Hclock _) Hf). }
    split; [lia|]. split; [lia|]. split; [lia|]. exact Hblocked.
Qed.

Lemma call_keeps_daily_limit_witness :
  log_file (call sample_client sample_world [] None None
              (fresh_state busy_day)).2 = busy_day.
Proof.
  destruct (call_keeps_daily_limit sample_client sample_world [] None None
              (fresh_state busy_day) 739000 (fun n => eq_refl))
    as (_ & _ & _ & Hblocked).
  apply Hblocked. vm_compute. discriminate.
Defined.

(* ===================================================================== *)
(** ** More on credentials *)
(* ===================================================================== *)

(** X6. A key the manager has returned once is returned again for that
    provider, under any spelling of its name that agrees in lower case,
    without the state changing, whatever the configuration and the
    environment have become in between: the cache is never refreshed. *)
Theorem cached_credential_is_reused (cfg : AgencyConfig) (w : World)
    (p : string) (st : State) (key : string) (st1 : State) :
  CredentialsManager_get cfg w p st = (Return key, st1) ->
  forall (cfg' : AgencyConfig) (w' : World) (p' : string),
    lower p' = lower p ->
    CredentialsManager_get cfg' w' p' st1 = (Return key, st1).
Proof.
  intros Hget cfg' w' p' Hp.
  assert (Hc : _cache st1 !! lower p = Some key).
  { unfold CredentialsManager_get in Hget.
    destruct (_cache st !! lower p) as [k|] eqn:Hk.
    - injection Hget as <- <-. exact Hk.
    - destruct (providers cfg !! lower p) as [pc|]; [|discriminate].
      destruct (truthy (api_key_env_var pc)) as [ev|]; [|discriminate].
      destruct (truthy (environ w !! ev)) as [k|]; [|discriminate].
      injection Hget as <- <-. simpl. apply lookup_insert_eq. }
  unfold CredentialsManager_get. rewrite Hp, Hc. reflexivity.
Qed.

Lemma cached_credential_is_reused_witness :
  exists st1,
    CredentialsManager_get sample_config sample_world "claude"
      (fresh_state FileMissing) = (Return "sk-ant", st1) /\
    CredentialsManager_get sample_config claude_only_world "CLAUDE" st1 =
      (Return "sk-ant", st1).
Proof.
  eexists. split; [reflexivity|].
  apply (cached_credential_is_reused sample_config sample_world "claude"
           (fresh_state FileMissing) "sk-ant" _ eq_refl
           sample_config claude_only_world "CLAUDE").
  reflexivity.
Defined.

Lemma truthy_Some (o : option string) (s : string) :
  truthy o = Some s -> o = Some s /\ s <> "".
Proof.
  destruct o as [[|c r]|]; simpl; intros H; try discriminate;
    injection H as <-; split; [reflexivity|discriminate].
Qed.

(** X7. When the key of a provider is not cached, [get] reads the entry
    of the lower-cased name in the providers map, and what it returns is
    the non-empty value that the environment holds for the non-empty
    variable name configured there; it then caches that key under the
    lower-cased name and changes nothing else. When it raises, it raises
    one of the three credential errors and leaves the state, cache
    included, exactly as it was: a failure is not remembered. *)
Theorem get_reads_the_environment (cfg : AgencyConfig) (w : World)
    (p : string) (st : State) (r : result string) (st' : State) :
  _cache st !! lower p = None ->
  CredentialsManager_get cfg w p st = (r, st') ->
  match r with
  | Return key =>
      exists pc env_var,
        providers cfg !! lower p = Some pc /\
        api_key_env_var pc = Some env_var /\ env_var <> "" /\
        environ w !! env_var = Some key /\ key <> "" /\
        st' = set_cache (<[lower p := key]> (_cache st)) st
  | Raise e =>
      st' = st /\
      (e = ValueError (CredentialProviderNotFound p) \/
       e = ValueError (NoApiKeyEnvVar p) \/
       exists env_var, e = ValueError (ApiKeyNotFound p env_var))
  end.
Proof.
  intros Hmiss Hget. unfold CredentialsManager_get in Hget.
  rewrite Hmiss in Hget.
  destruct (providers cfg !! lower p) as [pc|] eqn:Hpc.
  2:{ injection Hget as <- <-. auto. }
  destruct (truthy (api_key_env_var pc)) as [ev|] eqn:Hev.
  2:{ injection Hget as <- <-. auto. }
  destruct (truthy (environ w !! ev)) as [k|] eqn:Hk.
  2:{ injection Hget as <- <-. split; [reflexivity|]. right. right. eauto. }
  injection Hget as <- <-.
  apply truthy_Some in Hev as [Hev Hne], Hk as [Hk Hkne].
  exists pc, ev. auto 10.
Qed.

Lemma get_reads_the_environment_witness :
  exists st',
    CredentialsManager_get disabled_primary_config claude_only_world
      "chatgpt" (fresh_state FileMissing) =
      (Raise (ValueError (ApiKeyNotFound "chatgpt" "OPENAI_API_KEY")), st') /\
    st' = fresh_state FileMissing.
Proof.
  eexists. split; [reflexivity|].
  exact (proj1 (get_reads_the_environment disabled_primary_config
                  claude_only_world "chatgpt" (fresh_state FileMissing)
                  _ _ eq_refl eq_refl)).
Defined.

(** X8. [validate_all] reports one result per configured provider and
    none for any other name. For a provider whose name is in lower case
    and whose key is not cached, it reports [available] exactly when the
    provider is enabled and [get] would return a key; a disabled
    provider is reported unavailable for the reason "disabled", whether
    its key is set or not. *)
Theorem validate_all_agrees_with_get (cfg : AgencyConfig) (w : World)
    (p : string) (st : State) :
  lower p = p ->
  _cache st !! p = None ->
  match CredentialsManager_validate_all cfg w !! p with
  | None => providers cfg !! p = None
  | Some a =>
      exists pc,
        providers cfg !! p = Some pc /\
        (available a = true <->
         enabled pc = true /\
         exists key st', CredentialsManager_get cfg w p st = (Return key, st')) /\
        (enabled pc = false -> available a = false /\ reason a = ReasonDisabled)
  end.
Proof.
  intros Hlow Hmiss. unfold CredentialsManager_validate_all.
  rewrite lookup_fmap.
  destruct (providers cfg !! p) as [pc|] eqn:Hpc; simpl; [|reflexivity].
  exists pc. split; [reflexivity|].
  unfold validate_provider, CredentialsManager_get.
  rewrite Hlow, Hmiss, Hpc.
  destruct (enabled pc); simpl.
  - split; [|discriminate].
    destruct (truthy (api_key_env_var pc)) as [ev|]; simpl.
    + destruct (truthy (environ w !! ev)) as [k|]; simpl.
      * split; [eauto|reflexivity].
      * split; [discriminate|]. intros (_ & k & s & [=]).
    + split; [discriminate|]. intros (_ & k & s & [=]).
  - split; [|auto]. split; [discriminate|]. intros ([=] & _).
Qed.

Lemma validate_all_agrees_with_get_witness :
  exists a,
    CredentialsManager_validate_all disabled_primary_config sample_world
      !! "chatgpt" = Some a /\
    available a = false /\ reason a = ReasonDisabled.
Proof.
  pose proof (validate_all_agrees_with_get disabled_primary_config
                sample_world "chatgpt" (fresh_state FileMissing)
                eq_refl eq_refl) as H.
  destruct (CredentialsManager_validate_all disabled_primary_config
              sample_world !! "chatgpt") as [a|] eqn:E.
  - exists a. split; [reflexivity|].
    destruct H as (pc & Hpc & _ & Hdis). apply Hdis.
    vm_compute in Hpc. injection Hpc as <-. reflexivity.
  - vm_compute in H. discriminate H.
Defined.

(* ===================================================================== *)
(** ** More on the factory *)
(* ===================================================================== *)

Lemma NoDup_fst_filter {A B : Type} (f : A * B -> bool) (l : list (A * B)) :
  NoDup (map fst l) -> NoDup (map fst (List.filter f l)).
Proof.
  induction l as [|x l IH]; simpl; intros Hnd; [constructor|].
  apply NoDup_cons in Hnd as [Hx Hnd].
  destruct (f x); simpl; [|auto].
  apply NoDup_cons. split; [|auto].
  intros Hin. apply Hx.
  apply list_elem_of_fmap in Hin as (y & Hy & Hin).
  apply list_elem_of_fmap. exists y. split; [exact Hy|].
  apply list_elem_of_In in Hin. apply List.filter_In in Hin as [Hin _].
  apply list_elem_of_In. exact Hin.
Qed.

(** X9. [list_enabled] lists, each once, exactly the names of the
    configured providers whose config is enabled; for a listed provider
    the factory never answers "not enabled". *)
Theorem list_enabled_lists_the_enabled (cfg : AgencyConfig) (p : string) :
  (p ∈ ProviderFactory_list_enabled cfg <->
   exists pc, providers cfg !! p = Some pc /\ enabled pc = true) /\
  NoDup (ProviderFactory_list_enabled cfg) /\
  (p ∈ ProviderFactory_list_enabled cfg ->
   forall pc w key,
     providers cfg !! p = Some pc ->
     ProviderFactory_create w p pc key <>
       Raise (ValueError (ProviderNotEnabled p))).
Proof.
  assert (Hmem : p ∈ ProviderFactory_list_enabled cfg <->
                 exists pc, providers cfg !! p = Some pc /\ enabled pc = true).
  { unfold ProviderFactory_list_enabled. split.
    - intros Hin. apply list_elem_of_fmap in Hin as ([q pc] & Hq & Hin).
      simpl in Hq. subst q.
      apply list_elem_of_In in Hin. apply List.filter_In in Hin as [Hin He].
      apply list_elem_of_In in Hin. apply elem_of_map_to_list in Hin.
      exists pc. split; [exact Hin|exact He].
    - intros (pc & Hpc & He). apply list_elem_of_fmap.
      exists (p, pc). split; [reflexivity|].
      apply list_elem_of_In. apply List.filter_In. split; [|exact He].
      apply list_elem_of_In. apply elem_of_map_to_list. exact Hpc. }
  split; [exact Hmem|]. split.
  - unfold ProviderFactory_list_enabled. apply NoDup_fst_filter.
    apply NoDup_fst_map_to_list.
  - intros Hin pc w key Hpc. apply Hmem in Hin as (pc' & Hpc' & He).
    assert (pc' = pc) by congruence. subst pc'.
    unfold ProviderFactory_create. rewrite He.
    destruct (PROVIDERS !! lower p) as [cls|]; simpl; [|discriminate].
    unfold provider_init.
    destruct cls; [| destruct (openai_installed w)
                   | destruct (xai_grok_installed w)]; discriminate.
Qed.

Lemma list_enabled_lists_the_enabled_witness :
  "claude" ∈ ProviderFactory_list_enabled disabled_primary_config /\
  ~ "chatgpt" ∈ ProviderFactory_list_enabled disabled_primary_config.
Proof.
  split.
  - apply (proj1 (list_enabled_lists_the_enabled disabled_primary_config
                    "claude")).
    exists sample_claude. split; reflexivity.
  - intros Hin.
    apply (proj1 (list_enabled_lists_the_enabled disabled_primary_config
                    "chatgpt")) in Hin as (pc & Hpc & He).
    vm_compute in Hpc. injection Hpc as <-. discriminate He.
Defined.

Lemma lower_ascii_idempotent (c : Ascii.ascii) :
  lower_ascii (lower_ascii c) = lower_ascii c.
Proof. destruct c as [[] [] [] [] [] [] [] []]; reflexivity. Qed.

Lemma lower_idempotent (s : string) : lower (lower s) = lower s.
Proof.
  induction s as [|c s IH]; simpl; [reflexivity|].
  rewrite lower_ascii_idempotent, IH. reflexivity.
Qed.

Lemma PROVIDERS_available (s : string) :
  match PROVIDERS !! s with
  | Some _ => s ∈ ProviderFactory_list_available
  | None => s ∉ ProviderFactory_list_available
  end.
Proof.
  unfold PROVIDERS, ProviderFactory_list_available.
  destruct (decide (s = "claude")) as [->|N1]; [simplify_map_eq; set_solver|].
  destruct (decide (s = "chatgpt")) as [->|N2]; [simplify_map_eq; set_solver|].
  destruct (decide (s = "grok")) as [->|N3]; [simplify_map_eq; set_solver|].
  simplify_map_eq. rewrite !not_elem_of_cons.
  repeat split; auto. apply not_elem_of_nil.
Qed.

(** X10. The factory matches names without regard to case and tells its
    failures apart. It returns a provider only for an enabled config and
    a name that in lower case is one of [list_available]; the provider
    then is of the class registered under the lower-cased name and
    carries the config and the key it was given, and the lower-cased name
    gives the same provider. An unknown name is reported as such even
    when the config is disabled; "not enabled" is reported only for a
    known name; an import error only for an enabled ChatGPT or Grok
    provider whose SDK is not installed. *)
Theorem create_by_lower_case_name (w : World) (p : string)
    (pc : ProviderConfig) (key : string) :
  match ProviderFactory_create w p pc key with
  | Return prov =>
      ProviderFactory_create w (lower p) pc key = Return prov /\
      enabled pc = true /\ lower p ∈ ProviderFactory_list_available /\
      provider_name_of (kind prov) = lower p /\
      config prov = pc /\ api_key prov = key
  | Raise (ValueError (UnknownProvider q)) =>
      q = p /\ lower p ∉ ProviderFactory_list_available
  | Raise (ValueError (ProviderNotEnabled q)) =>
      q = p /\ enabled pc = false /\
      lower p ∈ ProviderFactory_list_available
  | Raise (ImportError _) =>
      enabled pc = true /\
      (lower p = "chatgpt" /\ openai_installed w = false \/
       lower p = "grok" /\ xai_grok_installed w = false)
  | Raise _ => False
  end.
Proof.
  pose proof (PROVIDERS_available (lower p)) as Hav.
  unfold ProviderFactory_create. rewrite lower_idempotent.
  destruct (PROVIDERS !! lower p) as [cls|] eqn:Hcls; [|auto].
  pose proof (PROVIDERS_name _ _ Hcls) as Hname.
  destruct (enabled pc); simpl; [|auto].
  unfold provider_init.
  destruct cls; simpl in *.
  - auto 10.
  - destruct (openai_installed w); simpl; auto 10.
  - destruct (xai_grok_installed w); simpl; auto 10.
Qed.

(* ===================================================================== *)
(** ** How much a call may do *)
(* ===================================================================== *)













(* ===================================================================== *)
(** ** Failures inside a provider attempt *)
(* ===================================================================== *)

(** Three failing invocations in a row: the third exception comes out,
    after three requests. *)
Lemma retry_three_failures (self : APIClient) (w : World) (prov : Provider)
    (msgs : list Message) (sp : option string) (mt : option Z) (st : State)
    (e : nat -> Exn) :
  (forall i s, (i < 3)%nat ->
     requests_sent s = (requests_sent st + i)%nat ->
     provider_call w prov msgs sp mt s = (Raise (e i), count_request s)) ->
  exists st',
    _call_with_retries self w prov msgs sp mt 3 st = (Raise (e 2%nat), st') /\
    requests_sent st' = (requests_sent st + 3)%nat /\
    log_file st' = log_file st /\ clock_reads st' = clock_reads st /\
    trace st' =
      trace st ++
      attempts_trace (kind prov)
        (default 2%Q (retry_backoff_base (client_config self))) 0 3.
Proof.
  intros Hfail. unfold _call_with_retries.
  cbn [seq retry_loop Nat.ltb Nat.leb Nat.sub].
  rewrite (Hfail 0%nat) by (simpl; lia).
  cbn [seq retry_loop Nat.ltb Nat.leb Nat.sub].
  rewrite (Hfail 1%nat) by (simpl; lia).
  cbn [seq retry_loop Nat.ltb Nat.leb Nat.sub].
  rewrite (Hfail 2%nat) by (simpl; lia).
  eexists. split; [reflexivity|]. simpl.
  split; [lia|]. split; [reflexivity|]. split; [reflexivity|].
  rewrite <- !app_assoc. reflexivity.
Qed.

Lemma provider_call_refused (w : World) (prov : Provider)
    (msgs : list Message) (sp : option string) (mt : option Z) (s : State)
    (ve : bool) (msg : string) :
  kind prov <> GrokProvider ->
  (forall rq, upstream w (requests_sent s) rq = UpstreamRaise ve msg) ->
  provider_call w prov msgs sp mt s =
    (Raise (if ve then ValueError (UpstreamValueError msg)
            else UpstreamError msg), count_request s).
Proof.
  intros Hk Hup. unfold provider_call, bind, send.
  destruct (kind prov); [| |congruence]; rewrite Hup; destruct ve; reflexivity.
Qed.

(** X13. A [ValueError] raised by the SDK inside a provider's [call] is
    not told apart from the client's own [ValueError]s. It is retried
    like any failure, and when the three attempts on a provider all end
    in it, the call re-raises the last one: the fallback providers are
    not tried and nothing is written to the usage log, although three
    requests were sent. *)
Theorem sdk_value_error_aborts_the_call (self : APIClient) (w : World)
    (msgs : list Message) (sp : option string) (mt : option Z) (st : State)
    (p : string) (rest : list string) (pc : ProviderConfig) (key : string)
    (s1 : State) (prov : Provider) (msg : nat -> string) :
  (daily_check self w st).1.1 = true ->
  (cost_check self st).1.1 = true ->
  providers_to_try self = p :: rest ->
  providers (client_config self) !! p = Some pc ->
  CredentialsManager_get (client_config self) w p
    (emit (EvTry p) (after_checks st)) = (Return key, s1) ->
  ProviderFactory_create w p pc key = Return prov ->
  kind prov <> GrokProvider ->
  (forall i rq, (i < 3)%nat ->
     upstream w (requests_sent st + i) rq = UpstreamRaise true (msg i)) ->
  exists st',
    call self w msgs sp mt st =
      (Raise (ValueError (UpstreamValueError (msg 2%nat))), st') /\
    tried (trace st') = tried (trace st) ++ [p] /\
    requests_sent st' = (requests_sent st + 3)%nat /\
    log_file st' = log_file st /\
    logged (trace st') = logged (trace st).
Proof.
  intros Hd Hc Hlist Hpc Hget Hmake Hk Hup.
  pose proof (CredentialsManager_get_frame _ _ _ _ _ _ Hget)
    as (Hl1 & Ht1 & Hk1 & Hq1). simpl in Hl1, Ht1, Hk1, Hq1.
  destruct (retry_three_failures self w prov msgs sp mt s1
              (fun i => ValueError (UpstreamValueError (msg i))))
    as (st' & Hretry & Hq & Hl & _ & Ht).
  { intros i s Hi Hs.
    apply (provider_call_refused w prov msgs sp mt s true (msg i) Hk).
    intros rq. rewrite Hs, Hq1. apply Hup. exact Hi. }
  exists st'. split.
  - rewrite (call_within_limits _ _ _ _ _ _ Hd Hc). rewrite Hlist at 2.
    simpl. unfold try_provider. rewrite Hpc. unfold bind at 1.
    rewrite Hget. unfold bind at 1, lift. rewrite Hmake.
    unfold bind at 1. rewrite Hretry. reflexivity.
  - rewrite Ht, Ht1, Hq, Hq1, Hl, Hl1. simpl.
    rewrite !tried_app, !logged_app.
    unfold tried, logged. simpl. rewrite !app_nil_r. auto.
Qed.

Lemma sdk_value_error_aborts_the_call_witness :
  (call sample_client refusing_world [] None None
     (fresh_state FileMissing)).1 =
    Raise (ValueError (UpstreamValueError "max_tokens too large")) /\
  log_file (call sample_client refusing_world [] None None
              (fresh_state FileMissing)).2 = FileMissing.
Proof.
  destruct (sdk_value_error_aborts_the_call sample_client refusing_world []
              None None (fresh_state FileMissing) "claude" ["chatgpt"]
              sample_claude "sk-ant" _ sample_provider
              (fun _ => "max_tokens too large")
              eq_refl eq_refl eq_refl eq_refl eq_refl eq_refl
              ltac:(discriminate) (fun _ _ _ => eq_refl))
    as (st' & Hcall & _ & _ & Hl & _).
  rewrite Hcall. simpl. split; [reflexivity|exact Hl].
Defined.

Lemma provider_call_unbilled (w : World) (prov : Provider)
    (msgs : list Message) (sp : option string) (mt : option Z) (s : State)
    (e : Exn) :
  kind prov <> GrokProvider ->
  (forall rq, exists text tin tout,
     upstream w (requests_sent s) rq = UpstreamReturn text tin tout) ->
  (forall tin tout, calculate_cost prov tin tout = Raise e) ->
  provider_call w prov msgs sp mt s = (Raise e, count_request s).
Proof.
  intros Hk Hup He. unfold provider_call, bind, send, lift.
  destruct (kind prov); [| |congruence];
    match goal with
    | |- context [upstream w (requests_sent s) ?rq] =>
        destruct (Hup rq) as (text & tin & tout & ->)
    end; rewrite He; reflexivity.
Qed.

(** X14. A Claude or ChatGPT provider whose config lacks a billing rate
    fails after the network call, not before it: [calculate_cost] raises
    [KeyError] (for [input_per_mtok] first) only once the upstream has
    answered. The retry loop repeats this, so three requests are sent and
    answered before the [KeyError] comes out as that provider's failure;
    it is not a [ValueError], so the client moves on to the fallback. *)
Theorem missing_billing_fails_after_the_request (self : APIClient)
    (w : World) (prov : Provider) (msgs : list Message)
    (sp : option string) (mt : option Z) (st : State) :
  kind prov <> GrokProvider ->
  (input_per_mtok (billing (config prov)) = None \/
   output_per_mtok (billing (config prov)) = None) ->
  (forall i rq, (i < 3)%nat ->
     exists text tin tout,
       upstream w (requests_sent st + i) rq = UpstreamReturn text tin tout) ->
  exists k st',
    _call_with_retries self w prov msgs sp mt 3 st = (Raise (KeyError k), st') /\
    (k = match input_per_mtok (billing (config prov)) with
         | Some _ => "output_per_mtok"
         | None => "input_per_mtok"
         end) /\
    is_ValueError (KeyError k) = false /\
    requests_sent st' = (requests_sent st + 3)%nat /\
    log_file st' = log_file st.
Proof.
  intros Hk Hmissing Hup.
  set (k := match input_per_mtok (billing (config prov)) with
            | Some _ => "output_per_mtok"
            | None => "input_per_mtok"
            end).
  assert (Hcost : forall tin tout,
            calculate_cost prov tin tout = Raise (KeyError k)).
  { intros tin tout. unfold calculate_cost, k.
    destruct (kind prov); [| |congruence];
      destruct (input_per_mtok (billing (config prov))); try reflexivity;
      destruct Hmissing as [Hm|Hm]; try discriminate; rewrite Hm;
      reflexivity. }
  destruct (retry_three_failures self w prov msgs sp mt st
              (fun _ => KeyError k)) as (st' & Hretry & Hq & Hl & _).
  { intros i s Hi Hs.
    apply (provider_call_unbilled w prov msgs sp mt s (KeyError k) Hk);
      [|exact Hcost].
    intros rq. rewrite Hs. apply Hup. exact Hi. }
  exists k, st'. auto.
Qed.

Lemma missing_billing_fails_after_the_request_witness :
  exists st',
    _call_with_retries sample_client sample_world unbilled_provider [] None
      None 3 (fresh_state FileMissing) =
      (Raise (KeyError "input_per_mtok"), st') /\
    requests_sent st' = 3%nat.
Proof.
  destruct (missing_billing_fails_after_the_request sample_client
              sample_world unbilled_provider [] None None
              (fresh_state FileMissing) ltac:(discriminate)
              (or_introl eq_refl)
              (fun _ _ _ =>
                 ex_intro _ "ok" (ex_intro _ 1000%Z
                   (ex_intro _ 500%Z eq_refl))))
    as (k & st' & Hr & Hk & _ & Hq & _).
  exists st'. rewrite Hr, Hk. split; [reflexivity|exact Hq].
Defined.

(* ===================================================================== *)
(** ** A call seen from the summary *)
(* ===================================================================== *)

Lemma success_cost_app (a b : list UsageLogEntry) :
  (success_cost (a ++ b) == success_cost a + success_cost b)%Q.
Proof.
  induction a as [|log a IH]; simpl; [ring|].
  destruct (status log); rewrite IH; ring.
Qed.

Lemma sum_tokens_app (a b : list UsageLogEntry) :
  sum_tokens (a ++ b) = (sum_tokens a + sum_tokens b)%Z.
Proof.
  unfold sum_tokens. induction a as [|x a IH]; simpl; [reflexivity|].
  rewrite IH. lia.
Qed.

Lemma summary_after_append (f f' : LogFile) (e : UsageLogEntry) :
  _load_logs f' = _load_logs f ++ [e] ->
  total_calls (get_usage_summary f') = S (total_calls (get_usage_summary f)) /\
  total_tokens (get_usage_summary f') =
    (total_tokens (get_usage_summary f) +
     if is_success e then entry_total_tokens e else 0)%Z /\
  (total_cost (get_usage_summary f') ==
   total_cost (get_usage_summary f) +
   if is_success e then cost_usd e else 0)%Q.
Proof.
  intros Hload.
  pose proof (fold_summary_totals (_load_logs f)
                (empty_summary (length (_load_logs f)))) as [Hc Ht].
  pose proof (fold_summary_totals (_load_logs f')
                (empty_summary (length (_load_logs f')))) as [Hc' Ht'].
  unfold get_usage_summary. rewrite Hc, Hc', Ht, Ht'. simpl.
  split; [rewrite Hload, length_app; simpl; lia|].
  split.
  - rewrite Hload, List.filter_app, sum_tokens_app. simpl.
    destruct (is_success e); unfold sum_tokens; simpl; lia.
  - fold (get_usage_summary f). fold (get_usage_summary f').
    rewrite !total_cost_is_success_cost, Hload, success_cost_app. simpl.
    unfold is_success. destruct (status e); ring.
Qed.

(** X15. What a call does to the usage summary. A call that returns a
    response adds one to [total_calls], the input and output tokens of
    the response to [total_tokens], and the cost of the response rounded
    to four decimals to [total_cost]. A call that raises
    [AllProvidersFailed] adds one to [total_calls] and nothing else. A
    call that raises a [ValueError] leaves the summary as it was. There
    is no other way for a call to end. *)
Theorem call_updates_the_summary (self : APIClient) (w : World)
    (msgs : list Message) (sp : option string) (mt : option Z) (st : State) :
  let r := (call self w msgs sp mt st).1 in
  let st' := (call self w msgs sp mt st).2 in
  let before := get_usage_summary (log_file st) in
  let after := get_usage_summary (log_file st') in
  match r with
  | Return (Some resp) =>
      total_calls after = S (total_calls before) /\
      total_tokens after =
        (total_tokens before + (input_tokens resp + output_tokens resp))%Z /\
      (total_cost after ==
       total_cost before + py_round (resp_cost_usd resp) 4)%Q
  | Raise (AllProvidersFailed _) =>
      total_calls after = S (total_calls before) /\
      total_tokens after = total_tokens before /\
      (total_cost after == total_cost before)%Q
  | Raise (ValueError _) => after = before
  | _ => False
  end.
Proof.
  intros r st' before after. subst before after.
  destruct (call_outcome self w msgs sp mt st)
    as [(m & Hr & _ & Hl & _)|(_ & _ & Hnn & new & _ & _ & Hout)];
    fold r in Hr || fold r in Hnn, Hout; fold st' in Hl || fold st' in Hout.
  - rewrite Hr, Hl. reflexivity.
  - unfold loop_outcome in Hout.
    change (log_file (after_checks st)) with (log_file st) in Hout.
    destruct r as [[resp|]|e].
    + destruct Hout as (body & p & _ & _ & _ & Hf & _).
      destruct (summary_after_append (log_file st) (log_file st') _
                  ltac:(rewrite Hf; reflexivity)) as (Hc & Ht & Hq).
      split; [exact Hc|]. split; [rewrite Ht; reflexivity|].
      rewrite Hq. reflexivity.
    + congruence.
    + destruct e; try contradiction.
      * destruct Hout as (_ & Hl). rewrite Hl. reflexivity.
      * destruct Hout as (_ & body & p & _ & _ & _ & _ & Hf).
        destruct (summary_after_append (log_file st) (log_file st') _
                    ltac:(rewrite Hf; reflexivity)) as (Hc & Ht & Hq).
        split; [exact Hc|]. split; [rewrite Ht; simpl; lia|].
        rewrite Hq. simpl. ring.
Qed.

(* ===================================================================== *)
(** ** validate_api_key *)
(* ===================================================================== *)

(** X16. [validate_api_key] never raises. For the Claude and ChatGPT
    variants it sends exactly one request, the ten-token test message
    under the provider's model and key, and reports whether the upstream
    answered it: any exception, a [ValueError] included, gives [False].
    For the Grok variant it sends nothing and reports [False]. In every
    case the usage log, the credential cache and the trace are left
    alone. *)
Theorem validate_api_key_reports_the_answer (w : World) (self : Provider)
    (st : State) :
  exists (b : bool) (st' : State),
    validate_api_key w self st = (Return b, st') /\
    log_file st' = log_file st /\ _cache st' = _cache st /\
    trace st' = trace st /\
    (kind self = GrokProvider -> b = false /\ st' = st) /\
    (kind self <> GrokProvider ->
     requests_sent st' = S (requests_sent st) /\
     (b = true <->
      exists text tin tout,
        upstream w (requests_sent st) (test_request self) =
          UpstreamReturn text tin tout)).
Proof.
  assert (Hsend :
    exists (b : bool),
      (match send w (test_request self) st with
       | (Return _, st') => (Return b, st')
       | (Raise _, st') => (Return b, st')
       end = match send w (test_request self) st with
             | (Return _, st') => (Return true, st')
             | (Raise _, st') => (Return false, st')
             end) /\
      (send w (test_request self) st).2 = count_request st /\
      (b = true <->
       exists text tin tout,
         upstream w (requests_sent st) (test_request self) =
           UpstreamReturn text tin tout)).
  { unfold send.
    destruct (upstream w (requests_sent st) (test_request self))
      as [text tin tout|[] msg].
    - exists true. split; [reflexivity|]. split; [reflexivity|].
      split; [eauto|reflexivity].
    - exists false. split; [reflexivity|]. split; [reflexivity|].
      split; [discriminate|]. intros (? & ? & ? & [=]).
    - exists false. split; [reflexivity|]. split; [reflexivity|].
      split; [discriminate|]. intros (? & ? & ? & [=]). }
  destruct Hsend as (b & Heq & Hst & Hb).
  unfold validate_api_key.
  destruct (kind self) eqn:Hk.
  - exists b, (count_request st). rewrite <- Heq.
    destruct (send w (test_request self) st) as [[x|e] s1]; simpl in Hst;
      subst s1; (split; [reflexivity|]); simpl;
      repeat split; auto; try discriminate; apply Hb.
  - exists b, (count_request st). rewrite <- Heq.
    destruct (send w (test_request self) st) as [[x|e] s1]; simpl in Hst;
      subst s1; (split; [reflexivity|]); simpl;
      repeat split; auto; try discriminate; apply Hb.
  - exists false, st. split; [reflexivity|].
    repeat split; auto; congruence.
Qed.

Lemma validate_api_key_reports_the_answer_witness :
  (validate_api_key sample_world grok_provider (fresh_state FileMissing)).1 =
    Return false /\
  (validate_api_key refusing_world sample_provider
     (fresh_state FileMissing)).1 = Return false /\
  (validate_api_key sample_world sample_provider
     (fresh_state FileMissing)).1 = Return true.
Proof.
  split; [|split].
  - destruct (validate_api_key_reports_the_answer sample_world grok_provider
                (fresh_state FileMissing))
      as (b & st' & Hv & _ & _ & _ & Hgrok & _).
    rewrite Hv. simpl. f_equal. exact (proj1 (Hgrok eq_refl)).
  - destruct (validate_api_key_reports_the_answer refusing_world
                sample_provider (fresh_state FileMissing))
      as (b & st' & Hv & _ & _ & _ & _ & Hother).
    rewrite Hv. simpl. f_equal.
    destruct (Hother ltac:(discriminate)) as (_ & Hb).
    destruct b; [|reflexivity].
    destruct (proj1 Hb eq_refl) as (? & ? & ? & [=]).
  - destruct (validate_api_key_reports_the_answer sample_world
                sample_provider (fresh_state FileMissing))
      as (b & st' & Hv & _ & _ & _ & _ & Hother).
    rewrite Hv. simpl. f_equal.
    destruct (Hother ltac:(discriminate)) as (_ & Hb).
    apply Hb. exists "ok", 1000%Z, 500%Z. reflexivity.
Defined.

(* ===================================================================== *)
(** ** Costs at the edges *)
(* ===================================================================== *)

Lemma round_half_even_nonneg (y : Q) :
  (0 <= y)%Q -> (0 <= round_half_even y)%Z.
Proof.
  destruct y as [n d]. unfold Qle, round_half_even. cbn [Qnum Qden].
  intros Hn. rewrite Z.mul_1_r in Hn. simpl in Hn.
  assert (0 <= n / Z.pos d)%Z by (apply Z.div_pos; lia).
  destruct (2 * (n mod Z.pos d) ?= Z.pos d)%Z;
    [destruct (Z.even (n / Z.pos d))| |]; lia.
Qed.

Lemma py_round_nonneg (x : Q) (ndigits : nat) :
  (0 <= x)%Q -> (0 <= py_round x ndigits)%Q.
Proof.
  intros Hx. unfold py_round.
  assert (Hs : (0 <= x * inject_Z (10 ^ Z.of_nat ndigits))%Q).
  { apply Qmult_le_0_compat; [exact Hx|].
    pose proof (scale_pos ndigits). unfold Qle, inject_Z. simpl. lia. }
  apply round_half_even_nonneg in Hs.
  unfold Qle. cbn [Qnum Qden]. lia.
Qed.

Lemma token_cost_nonneg (n : Z) (rate : Q) :
  (0 <= n)%Z -> (0 <= rate)%Q -> (0 <= token_cost n rate)%Q.
Proof.
  intros Hn Hr. unfold token_cost, Qdiv.
  apply Qmult_le_0_compat; [|discriminate].
  apply Qmult_le_0_compat; [|exact Hr].
  unfold Qle, inject_Z. simpl. lia.
Qed.

(** X17. [calculate_cost] at the edges. With non-negative token counts
    and non-negative rates the cost is never negative, and no tokens cost
    nothing. The Grok variant never fails: it puts 0.002 and 0.01 in the
    place of a missing rate. The Claude and ChatGPT variants fail with
    [KeyError] when a rate is missing, naming [input_per_mtok] first, and
    [output_per_mtok] only when the input rate is there. *)
Theorem calculate_cost_at_the_edges (self : Provider) (tin tout : Z) :
  (0 <= tin)%Z -> (0 <= tout)%Z ->
  (forall r, input_per_mtok (billing (config self)) = Some r -> (0 <= r)%Q) ->
  (forall r, output_per_mtok (billing (config self)) = Some r -> (0 <= r)%Q) ->
  match calculate_cost self tin tout with
  | Return c =>
      (0 <= c)%Q /\
      (tin = 0%Z -> tout = 0%Z -> (c == 0)%Q) /\
      (kind self = GrokProvider ->
       (c == py_round
               (token_cost tin
                  (default (2 # 1000) (input_per_mtok (billing (config self)))) +
                token_cost tout
                  (default (1 # 100) (output_per_mtok (billing (config self)))))
               6)%Q) /\
      (kind self <> GrokProvider ->
       is_Some (input_per_mtok (billing (config self))) /\
       is_Some (output_per_mtok (billing (config self))))
  | Raise e =>
      kind self <> GrokProvider /\
      (input_per_mtok (billing (config self)) = None /\
       e = KeyError "input_per_mtok" \/
       is_Some (input_per_mtok (billing (config self))) /\
       output_per_mtok (billing (config self)) = None /\
       e = KeyError "output_per_mtok")
  end.
Proof.
  intros Htin Htout Hin Hout.
  assert (Hgood : forall ri ro, (0 <= ri)%Q -> (0 <= ro)%Q ->
            (0 <= py_round (token_cost tin ri + token_cost tout ro) 6)%Q /\
            (tin = 0%Z -> tout = 0%Z ->
             (py_round (token_cost tin ri + token_cost tout ro) 6 == 0)%Q)).
  { intros ri ro Hri Hro. split.
    - apply py_round_nonneg.
      apply Qle_trans with (0 + 0)%Q; [discriminate|].
      apply Qplus_le_compat; apply token_cost_nonneg; assumption.
    - intros -> ->.
      assert (Hz : (token_cost 0 ri + token_cost 0 ro == 0)%Q).
      { unfold token_cost. simpl. field. }
      rewrite (py_round_exact _ 6 0); [exact Hz|].
      rewrite Hz. reflexivity. }
  unfold calculate_cost.
  destruct (kind self) eqn:Hk.
  - destruct (input_per_mtok (billing (config self))) as [ri|] eqn:Hi;
      [|split; [discriminate|auto]].
    destruct (output_per_mtok (billing (config self))) as [ro|] eqn:Ho;
      [|split; [discriminate|right; eauto]].
    destruct (Hgood ri ro (Hin ri eq_refl) (Hout ro eq_refl)) as [H0 Hz].
    split; [exact H0|]. split; [exact Hz|]. split; [discriminate|eauto].
  - destruct (input_per_mtok (billing (config self))) as [ri|] eqn:Hi;
      [|split; [discriminate|auto]].
    destruct (output_per_mtok (billing (config self))) as [ro|] eqn:Ho;
      [|split; [discriminate|right; eauto]].
    destruct (Hgood ri ro (Hin ri eq_refl) (Hout ro eq_refl)) as [H0 Hz].
    split; [exact H0|]. split; [exact Hz|]. split; [discriminate|eauto].
  - assert (Hri : (0 <= default (2 # 1000)
                          (input_per_mtok (billing (config self))))%Q).
    { destruct (input_per_mtok (billing (config self))) as [ri|];
        [apply Hin; reflexivity|discriminate]. }
    assert (Hro : (0 <= default (1 # 100)
                          (output_per_mtok (billing (config self))))%Q).
    { destruct (output_per_mtok (billing (config self))) as [ro|];
        [apply Hout; reflexivity|discriminate]. }
    destruct (Hgood _ _ Hri Hro) as [H0 Hz].
    split; [exact H0|]. split; [exact Hz|].
    split; [reflexivity|]. intros Hne. exfalso. apply Hne. reflexivity.
Qed.

Lemma calculate_cost_at_the_edges_witness :
  exists c, calculate_cost grok_provider 0 0 = Return c /\ (c == 0)%Q.
Proof.
  pose proof (calculate_cost_at_the_edges grok_provider 0 0
                ltac:(lia) ltac:(lia)
                (fun r (H : None = Some r) =>
                   match H in _ = o return
                     match o with Some _ => (0 <= r)%Q | None => True end
                   with eq_refl => I end)
                (fun r (H : None = Some r) =>
                   match H in _ = o return
                     match o with Some _ => (0 <= r)%Q | None => True end
                   with eq_refl => I end)) as H.
  destruct (calculate_cost grok_provider 0 0) as [c|e].
  - exists c. split; [reflexivity|].
    destruct H as (_ & Hz & _). apply Hz; reflexivity.
  - destruct H as (Hne & _). exfalso. apply Hne. reflexivity.
Defined.

(* ===================================================================== *)
(** ** The last name of the list, and the cache across a call *)
(* ===================================================================== *)

(** X18. The loop of [call] recognises its last provider by name, not by
    position. Wherever a provider stands in the list, when the providers
    before it have failed over, it fails with anything but a [ValueError]
    and its name is the last name of the list, the call writes the
    [failure] entry and raises [AllProvidersFailed] there and then,
    whatever providers stand after it: with the primary provider repeated
    at the end of the fallbacks, a failure of the primary ends the call
    before any fallback is tried. *)
Theorem last_name_ends_the_call (self : APIClient) (w : World)
    (msgs : list Message) (sp : option string) (mt : option Z) (st : State)
    (pre : list string) (p : string) (rest : list string) (e : Exn)
    (s1 s2 : State) :
  (daily_check self w st).1.1 = true ->
  (cost_check self st).1.1 = true ->
  providers_to_try self = pre ++ p :: rest ->
  List.last (providers_to_try self) "" = p ->
  for_providers self w msgs sp mt (providers_to_try self) pre
    (after_checks st) = (Return None, s1) ->
  try_provider self w msgs sp mt p (emit (EvTry p) s1) = (Raise e, s2) ->
  is_ValueError e = false ->
  exists st',
    call self w msgs sp mt st = (Raise (AllProvidersFailed e), st') /\
    tried (trace st') = tried (trace st) ++ pre ++ [p] /\
    log_file st' =
      FileLogs (_load_logs (log_file st) ++
                  [new_log_entry (clock w (S (clock_reads st)))
                     (agent_name self) p 0 0 0 failure (Some (MetaError e))]).
Proof.
  intros Hd Hc Hlist Hlast Hpre Htry Hve.
  pose proof (for_providers_spec _ _ _ _ _ _ _ _ _ _ Hpre)
    as (new1 & Htr1 & _ & Hall & Hlg1 & Hlf1 & Hck1).
  specialize (Hall eq_refl). simpl in Htr1, Hlf1, Hck1.
  pose proof (try_provider_spec _ _ _ _ _ _ _ _ _ Htry)
    as (Hl & Hk & new & Ht & _ & Htd). simpl in Hl, Hk, Ht.
  eexists. split.
  - rewrite (call_within_limits _ _ _ _ _ _ Hd Hc).
    rewrite Hlist at 2. rewrite for_providers_app, Hpre.
    cbn [for_providers].
    rewrite Htry, Hve, Hlast, String.eqb_refl.
    unfold bind, raise. rewrite UsageTracker_log_request_eq. reflexivity.
  - simpl. rewrite Ht, Hl, Hk, Htr1, Hlf1, Hck1. split; [|reflexivity].
    rewrite !tried_app, Htd, Hall. unfold tried. simpl.
    rewrite !app_nil_r, <- !app_assoc. reflexivity.
Qed.

Lemma last_name_ends_the_call_witness :
  (exists e,
     (call sample_client (failing_first 6) [] None None
        (fresh_state FileMissing)).1 = Raise (AllProvidersFailed e) /\
     tried (trace (call sample_client (failing_first 6) [] None None
                     (fresh_state FileMissing)).2) = ["claude"; "chatgpt"]) /\
  (exists e,
     (call circular_client (failing_first 3) [] None None
        (fresh_state FileMissing)).1 = Raise (AllProvidersFailed e) /\
     tried (trace (call circular_client (failing_first 3) [] None None
                     (fresh_state FileMissing)).2) = ["claude"]).
Proof.
  split.
  - edestruct (last_name_ends_the_call sample_client (failing_first 6) []
                 None None (fresh_state FileMissing) ["claude"] "chatgpt" []
                 (UpstreamError "connection reset"))
      as (st' & Hcall & Htried & _); [vm_compute; reflexivity..|].
    exists (UpstreamError "connection reset"). rewrite Hcall. simpl.
    split; [reflexivity|exact Htried].
  - edestruct (last_name_ends_the_call circular_client (failing_first 3) []
                 None None (fresh_state FileMissing) [] "claude"
                 ["chatgpt"; "claude"] (UpstreamError "connection reset"))
      as (st' & Hcall & Htried & _); [vm_compute; reflexivity..|].
    exists (UpstreamError "connection reset"). rewrite Hcall. simpl.
    split; [reflexivity|exact Htried].
Defined.





